(** * Alignment of a mobile base to an ArUco marker

    A shallow embedding of [src/perception/align_to_aruco.py]:
    the correction computed by [AlignToAruco.compute_difference], the
    three blocking motion goals of [AlignToAruco.align_to_marker] and the
    marker acquisition loop of [main].

    Python floats are read as exact real numbers ([R]) in the geometry
    and as exact rationals ([Q], seconds) for the wall clock, so rounding,
    overflow and NaN are outside the statements on [compute_difference];
    module [F64] reads the distance on doubles, where it can overflow.
    [main] is the run no operator interrupts; [main_interruptible] adds the
    KeyboardInterrupt that the [try] block of [main] catches. *)

From Stdlib Require Import Reals Psatz Lia List String Ascii ZArith QArith Bool.
From Stdlib Require Floats.
Import ListNotations.

(** ** geometry_msgs *)

Module Vector3.
Record t : Type := mk { x : R; y : R; z : R }.
End Vector3.

Module Quaternion.
Record t : Type := mk { x : R; y : R; z : R; w : R }.
End Quaternion.

Record Transform : Type := mkTransform {
  translation : Vector3.t;
  rotation : Quaternion.t
}.

Record TransformStamped : Type := mkTransformStamped {
  child_frame_id : string;
  transform : Transform
}.

(** ** numpy arrays of the two shapes the program uses *)

(** A 4x1 column (or one row of a 4x4 array). *)
Record Vec4 : Type := vec4 { e0 : R; e1 : R; e2 : R; e3 : R }.

(** A 4x4 array, row by row. *)
Record Mat4 : Type := mat4 { row0 : Vec4; row1 : Vec4; row2 : Vec4; row3 : Vec4 }.

Local Open Scope R_scope.

Definition dot (r c : Vec4) : R :=
  e0 r * e0 c + e1 r * e1 c + e2 r * e2 c + e3 r * e3 c.

(** [np.matmul] of a 4x4 array and a 4x1 column. *)
Definition matmul (m : Mat4) (c : Vec4) : Vec4 :=
  vec4 (dot (row0 m) c) (dot (row1 m) c) (dot (row2 m) c) (dot (row3 m) c).

(** [a + b] on 4x1 columns. *)
Definition vadd (a b : Vec4) : Vec4 :=
  vec4 (e0 a + e0 b) (e1 a + e1 b) (e2 a + e2 b) (e3 a + e3 b).

(** [a[3, 0] = v] *)
Definition set_e3 (a : Vec4) (v : R) : Vec4 := vec4 (e0 a) (e1 a) (e2 a) v.

Definition identity4 : Mat4 :=
  mat4 (vec4 1 0 0 0) (vec4 0 1 0 0) (vec4 0 0 1 0) (vec4 0 0 0 1).

(** ** math *)

(** [math.atan2(y, x)] on exact reals: the four-quadrant arctangent, with
    [atan2(0, 0) = 0]. *)
Definition atan2 (y x : R) : R :=
  if Rlt_dec 0 x then atan (y / x)
  else if Rlt_dec x 0 then
    if Rle_dec 0 y then atan (y / x) + PI else atan (y / x) - PI
  else if Rlt_dec 0 y then PI / 2
  else if Rlt_dec y 0 then - (PI / 2)
  else 0.

(** ** AlignToAruco.compute_difference *)

(** The fields of [self] that [compute_difference] reads. *)
Record AlignToAruco : Type := mkAlignToAruco {
  trans_base : TransformStamped;
  offset : R
}.

Definition Correction : Type := (R * R * R)%type.

Definition corr_phi (c : Correction) : R := fst (fst c).
Definition corr_dist (c : Correction) : R := snd (fst c).
Definition corr_theta (c : Correction) : R := snd c.

Section ComputeDifference.

(** The two functions imported from [tf_transformations] are parameters of
    the embedding: the results of this section hold whatever they compute. *)
Variable quaternion_matrix : Quaternion.t -> Mat4.
Variable euler_from_quaternion : Quaternion.t -> R * R * R.

Definition compute_difference (self : AlignToAruco) : Correction :=
  let '(x, y, z, w) :=
    (Quaternion.x (rotation (transform (trans_base self))),
     Quaternion.y (rotation (transform (trans_base self))),
     Quaternion.z (rotation (transform (trans_base self))),
     Quaternion.w (rotation (transform (trans_base self)))) in
  let Rm := quaternion_matrix (Quaternion.mk x y z w) in
  let P_dash := vec4 0 (- offset self) 0 1 in
  let P :=
    vec4 (Vector3.x (translation (transform (trans_base self))))
         (Vector3.y (translation (transform (trans_base self))))
         0 1 in
  let X := matmul Rm P_dash in
  let P_base := vadd X P in
  let P_base := set_e3 P_base 1 in
  let base_position_x := e0 P_base in
  let base_position_y := e1 P_base in
  let phi := atan2 base_position_y base_position_x in
  let dist := sqrt (base_position_x ^ 2 + base_position_y ^ 2) in
  let '(_, _, z_rot_base) := euler_from_quaternion (Quaternion.mk x y z w) in
  let z_rot_base := - phi + z_rot_base + PI in
  (phi, dist, z_rot_base).

End ComputeDifference.

(** ** tf_transformations *)

Module TF.

(** Machine epsilon of a double, [numpy.finfo(float).eps]. *)
Definition _FLOAT_EPS : R := / 2 ^ 52.
Definition _EPS4 : R := _FLOAT_EPS * 4.

(** Modelled from the spec: [quaternion_matrix] is imported from the
    [tf_transformations] package, which is not part of the repository; the
    spec (4.2, step 2) asks for the standard quaternion to rotation matrix
    formula as a 4x4 homogeneous matrix with no translation component.  The
    quaternion is normalised by its squared norm, and a quaternion of
    (nearly) zero norm gives the identity. *)
Definition quaternion_matrix (q : Quaternion.t) : Mat4 :=
  let '(x, y, z, w) :=
    (Quaternion.x q, Quaternion.y q, Quaternion.z q, Quaternion.w q) in
  let Nq := w * w + x * x + y * y + z * z in
  if Rlt_dec Nq _FLOAT_EPS then identity4
  else
    let s := 2 / Nq in
    let X := x * s in
    let Y := y * s in
    let Z := z * s in
    let wX := w * X in let wY := w * Y in let wZ := w * Z in
    let xX := x * X in let xY := x * Y in let xZ := x * Z in
    let yY := y * Y in let yZ := y * Z in let zZ := z * Z in
    mat4 (vec4 (1 - (yY + zZ)) (xY - wZ) (xZ + wY) 0)
         (vec4 (xY + wZ) (1 - (xX + zZ)) (yZ - wX) 0)
         (vec4 (xZ - wY) (yZ + wX) (1 - (xX + yY)) 0)
         (vec4 0 0 0 1).

(** Modelled from the spec: [euler_from_quaternion] is imported from the
    [tf_transformations] package, which is not part of the repository; the
    spec (4.2, step 8) asks for a roll-pitch-yaw decomposition of the
    quaternion, of which only the yaw is used.  This is the decomposition
    for the default axes (static x, y, z), read off the rotation matrix. *)
Definition euler_from_quaternion (q : Quaternion.t) : R * R * R :=
  let M := quaternion_matrix q in
  let cy := sqrt (e0 (row0 M) * e0 (row0 M) + e0 (row1 M) * e0 (row1 M)) in
  if Rlt_dec _EPS4 cy then
    (atan2 (e1 (row2 M)) (e2 (row2 M)),
     atan2 (- e0 (row2 M)) cy,
     atan2 (e0 (row1 M)) (e0 (row0 M)))
  else
    (atan2 (- e2 (row1 M)) (e1 (row1 M)),
     atan2 (- e0 (row2 M)) cy,
     0).

End TF.

(** The squared norm of a quaternion is 1. *)
Definition unit_quaternion (q : Quaternion.t) : Prop :=
  Quaternion.x q * Quaternion.x q + Quaternion.y q * Quaternion.y q
  + Quaternion.z q * Quaternion.z q + Quaternion.w q * Quaternion.w q = 1.

(** The yaw that [compute_difference] reads off a roll-pitch-yaw triple. *)
Definition yaw_of (rpy : R * R * R) : R := snd rpy.

(** ** The outside world: logger, actuator, transform buffer, clock *)

(** [action_msgs.msg.GoalStatus] *)
Module GoalStatus.
Definition STATUS_UNKNOWN : Z := 0.
Definition STATUS_ACCEPTED : Z := 1.
Definition STATUS_EXECUTING : Z := 2.
Definition STATUS_CANCELING : Z := 3.
Definition STATUS_SUCCEEDED : Z := 4.
Definition STATUS_CANCELED : Z := 5.
End GoalStatus.

Record JointTrajectoryPoint : Type := mkPoint {
  positions : list R;
  time_from_start : R
}.

(** [FollowJointTrajectory.Goal], reduced to the fields the program sets. *)
Record Goal : Type := mkGoal {
  joint_names : list string;
  points : list JointTrajectoryPoint
}.

(** What the action server answers to one goal: whether it accepts it and,
    when it does, the terminal status of the result. *)
Record GoalHandle : Type := mkGoalHandle {
  accepted : bool;
  status : Z
}.

(** The text of every logger call, with the values it interpolates. *)
Inductive Message : Type :=
| SendingGoal (joint_name : string) (inc : R)
    (* "[{joint_name}] Sending goal: {inc:.3f}" *)
| GoalRejected (joint_name : string)
    (* "Goal for {joint_name} was rejected!" *)
| GoalNotSucceeded (joint_name : string) (st : Z)
    (* "Goal for {joint_name} did not succeed: status {result.status}" *)
| GoalSucceeded (joint_name : string)
    (* "Goal for {joint_name} succeeded." *)
| NoTrajectoryServer
    (* "Unable to connect to trajectory server." *)
| WaitingForTransforms
    (* "Waiting for required transforms..." *)
| LookingUp (tag : string)
    (* "looking up transform from base_link to {tag}" *)
| FoundTag
    (* "Found the ArUco tag!" *)
| RobotWillMove
    (* "WARNING: The robot will now move!" *)
| LookupError (ex : string)
    (* "Error during transform lookup: {ex}" *)
| CouldNotDetect
    (* "Could not detect the ArUco marker. ..." *)
| TimeoutWaiting (joined : string)
    (* "Timeout waiting for transforms: {joined}. Exitting." *).

Inductive Level : Type := Info | Warn | Error.

(** Everything the program does to the outside, in the order it does it. *)
Inductive Event : Type :=
| Log (l : Level) (m : Message)
| Print (m : Message)
| CreateActionClient
| SendGoal (g : Goal)
| GetResult (g : Goal)
| SpinOnce
| Sleep (secs : Q)
| Shutdown
| SysExit.

(** One attempt of the transform buffer: [can_transform] says no, one of the
    two calls raises [TransformException], or [lookup_transform] answers. *)
Inductive Lookup : Type :=
| NotAvailable
| Raised (ex : string)
| Resolved (t : TransformStamped).

(** The collaborators, as the program observes them. *)
Record Env : Type := mkEnv {
  aruco_tag_name : string;
  (* rclpy.ok() at the head of iteration i *)
  rclpy_ok : nat -> bool;
  (* the transform buffer in iteration i *)
  tf_lookup : nat -> Lookup;
  (* how far spin_once and sleep(1) of iteration i advance the clock *)
  iteration_time : nat -> Q;
  (* wait_for_server *)
  server_ready : bool;
  (* the answer to the n-th goal sent *)
  actuator : nat -> Goal -> GoalHandle
}.

(** The state the program threads through its calls. *)
Record World : Type := mkWorld {
  now : Q;
  goals_sent : nat;
  trace : list Event
}.

(** A state monad over [World]. *)
Definition M (A : Type) : Type := World -> A * World.

Definition ret {A : Type} (a : A) : M A := fun w => (a, w).

Definition bind {A B : Type} (m : M A) (k : A -> M B) : M B :=
  fun w => let (a, w') := m w in k a w'.

Declare Scope prog_scope.
Delimit Scope prog_scope with prog.
Notation "x <- m ;; k" := (bind m (fun x => k))
  (at level 61, m at next level, right associativity) : prog_scope.
Notation "m ;; k" := (bind m (fun _ => k))
  (at level 61, right associativity) : prog_scope.
Local Open Scope prog_scope.

Definition emit (e : Event) : M unit :=
  fun w => (tt, mkWorld (now w) (goals_sent w) (trace w ++ [e])).

(** [time.time()] *)
Definition time_time : M Q := fun w => (now w, w).

(** The clock moves on by [d]. *)
Definition advance (d : Q) : M unit :=
  fun w => (tt, mkWorld (now w + d)%Q (goals_sent w) (trace w)).

(** [send_goal_async] followed by the spin that waits for the handle. *)
Definition send_goal_async (env : Env) (g : Goal) : M GoalHandle :=
  fun w =>
    (actuator env (goals_sent w) g,
     mkWorld (now w) (S (goals_sent w)) (trace w ++ [SendGoal g])).

(** ** AlignToAruco.align_to_marker *)

Definition send_base_goal_blocking (env : Env) (joint_name : string) (inc : R)
  : M unit :=
  let point := mkPoint [inc] 5 in
  let goal := mkGoal [joint_name] [point] in
  emit (Log Info (SendingGoal joint_name inc)) ;;
  goal_handle <- send_goal_async env goal ;;
  if negb (accepted goal_handle) then
    emit (Log Error (GoalRejected joint_name))
  else
    emit (GetResult goal) ;;
    if negb (status goal_handle =? GoalStatus.STATUS_SUCCEEDED)%Z then
      emit (Log Warn (GoalNotSucceeded joint_name (status goal_handle)))
    else
      emit (Log Info (GoalSucceeded joint_name)).

Section AlignToMarker.

Variable quaternion_matrix : Quaternion.t -> Mat4.
Variable euler_from_quaternion : Quaternion.t -> R * R * R.

Definition align_to_marker (env : Env) (self : AlignToAruco) : M unit :=
  let '(phi, dist, final_theta) :=
    compute_difference quaternion_matrix euler_from_quaternion self in
  send_base_goal_blocking env "rotate_mobile_base" phi ;;
  send_base_goal_blocking env "translate_mobile_base" dist ;;
  send_base_goal_blocking env "rotate_mobile_base" final_theta.

End AlignToMarker.

(** The goals of a trace, in the order they were sent. *)
Fixpoint goals_of (tr : list Event) : list Goal :=
  match tr with
  | [] => []
  | SendGoal g :: tr' => g :: goals_of tr'
  | _ :: tr' => goals_of tr'
  end.

(** The goal [send_base_goal_blocking] builds for a joint and an increment. *)
Definition base_goal (joint_name : string) (inc : R) : Goal :=
  mkGoal [joint_name] [mkPoint [inc] 5].

(** ** main *)

Definition timeout_sec : Q := 120.

(** The argument of [time.sleep] at the end of an iteration. *)
Definition poll_interval : Q := 1.

(** What one failed attempt appends to [missing]. *)
Definition missing_entry (tag : string) (l : Lookup) : list string :=
  match l with
  | NotAvailable => [("base_link → " ++ tag)%string]
  | Raised _ => ["exception"%string]
  | Resolved _ => []
  end.

(** What the loop leaves behind: [trans_base] and [missing]. *)
Definition Acquired : Type := (option TransformStamped * list string)%type.

(** The [while rclpy.ok()] loop of [main], entered for iteration [i] with
    [fuel] iterations allowed; [None] when the fuel does not suffice. *)
Fixpoint acquire (env : Env) (start_time : Q) (fuel i : nat)
    (missing : list string) : M (option Acquired) :=
  match fuel with
  | O => ret None
  | S fuel' =>
    if negb (rclpy_ok env i) then ret (Some (None, missing))
    else
      emit (Print (LookingUp (aruco_tag_name env))) ;;
      match tf_lookup env i with
      | Resolved t =>
          emit (Log Info FoundTag) ;;
          emit (Log Warn RobotWillMove) ;;
          ret (Some (Some t, missing))
      | attempt =>
          match attempt with
          | Raised ex => emit (Log Warn (LookupError ex))
          | _ => ret tt
          end ;;
          let missing := missing ++ missing_entry (aruco_tag_name env) attempt in
          emit (Log Error CouldNotDetect) ;;
          t <- time_time ;;
          let elapsed := (t - start_time)%Q in
          if negb (Qle_bool elapsed timeout_sec) then ret (Some (None, missing))
          else
            emit SpinOnce ;;
            emit (Sleep poll_interval) ;;
            advance (iteration_time env i) ;;
            acquire env start_time fuel' (S i) missing
      end
  end.

(** [AlignToAruco.__init__]: [None] stands for the [sys.exit()] taken when
    the trajectory server does not answer. *)
Definition AlignToAruco_init (env : Env) (trans_base : TransformStamped)
    (offset : R) : M (option AlignToAruco) :=
  emit CreateActionClient ;;
  if negb (server_ready env) then
    emit (Log Error NoTrajectoryServer) ;;
    emit SysExit ;;
    ret None
  else ret (Some (mkAlignToAruco trans_base offset)).

(** The default of the [offset] argument of [AlignToAruco]. *)
Definition default_offset : R := 0.75.

(** [main], with [fuel] iterations allowed to the acquisition loop; it
    answers what the loop left behind. *)
Definition main (env : Env) (fuel : nat) : M (option Acquired) :=
  start_time <- time_time ;;
  emit (Log Info WaitingForTransforms) ;;
  r <- acquire env start_time fuel 0 [] ;;
  match r with
  | None => ret None
  | Some (None, missing) =>
      emit (Log Error (TimeoutWaiting (String.concat ", " missing))) ;;
      emit Shutdown ;;
      ret r
  | Some (Some trans_base, _) =>
      align <- AlignToAruco_init env trans_base default_offset ;;
      match align with
      | Some align =>
          align_to_marker TF.quaternion_matrix TF.euler_from_quaternion
            env align
      | None => ret tt
      end ;;
      emit Shutdown ;;
      ret r
  end.

(** The world in which [main] starts, at clock reading [t0]. *)
Definition initial_world (t0 : Q) : World := mkWorld t0 0 [].

(** The number of iterations after which the loop has certainly stopped
    when every iteration takes at least [poll_interval]. *)
Definition max_iterations : nat := 122.

(** An event that builds the controller or moves the base. *)
Definition is_motion (e : Event) : bool :=
  match e with
  | CreateActionClient | SendGoal _ | GetResult _ => true
  | _ => false
  end.

(** An environment whose transform buffer never resolves the marker and
    whose iterations take [d] seconds each. *)
Definition never_found (d : Q) : Env :=
  mkEnv "bowl" (fun _ => true) (fun _ => NotAvailable) (fun _ => d) true
        (fun _ _ => mkGoalHandle true GoalStatus.STATUS_SUCCEEDED).

(** ** Inputs used below *)

(** [self] with the height of the marker replaced by [tz]. *)
Definition with_translation_z (self : AlignToAruco) (tz : R) : AlignToAruco :=
  let tb := trans_base self in
  let tf := transform tb in
  mkAlignToAruco
    (mkTransformStamped (child_frame_id tb)
       (mkTransform
          (Vector3.mk (Vector3.x (translation tf)) (Vector3.y (translation tf)) tz)
          (rotation tf)))
    (offset self).

(** A controller for a marker at [(tx, ty, 0)] with orientation [q]. *)
Definition aligner (tx ty : R) (q : Quaternion.t) (off : R) : AlignToAruco :=
  mkAlignToAruco
    (mkTransformStamped "bowl" (mkTransform (Vector3.mk tx ty 0) q)) off.

Definition identity_quaternion : Quaternion.t := Quaternion.mk 0 0 0 1.

(** A half-turn about the vertical axis. *)
Definition half_turn_quaternion : Quaternion.t := Quaternion.mk 0 0 1 0.

(** The rotation matrix of a half-turn about the vertical axis. *)
Definition half_turn4 : Mat4 :=
  mat4 (vec4 (-1) 0 0 0) (vec4 0 (-1) 0 0) (vec4 0 0 1 0) (vec4 0 0 0 1).

(** A marker one metre ahead of the base, facing along the base axes. *)
Definition sample_aligner : AlignToAruco :=
  aligner 1 0 identity_quaternion default_offset.



(** A transform buffer that says no, then raises, then resolves the marker;
    every iteration takes exactly [poll_interval]. *)
Definition found_at_third_attempt : Env :=
  mkEnv "bowl" (fun _ => true)
        (fun i => match i with
                  | O => NotAvailable
                  | S O => Raised "lookup would require extrapolation"
                  | _ => Resolved (trans_base sample_aligner)
                  end)
        (fun _ => poll_interval) true
        (fun _ _ => mkGoalHandle true GoalStatus.STATUS_SUCCEEDED).

(** ** Vocabulary of the statements *)

(** The events of one call of [send_base_goal_blocking] after the goal was
    sent, given the answer of the action server. *)
Definition outcome_events (h : GoalHandle) (joint_name : string) (inc : R)
  : list Event :=
  if accepted h then
    [GetResult (base_goal joint_name inc);
     if (status h =? GoalStatus.STATUS_SUCCEEDED)%Z
     then Log Info (GoalSucceeded joint_name)
     else Log Warn (GoalNotSucceeded joint_name (status h))]
  else [Log Error (GoalRejected joint_name)].

(** All the events of one call of [send_base_goal_blocking]. *)
Definition goal_events (h : GoalHandle) (joint_name : string) (inc : R)
  : list Event :=
  Log Info (SendingGoal joint_name inc) :: SendGoal (base_goal joint_name inc)
    :: outcome_events h joint_name inc.

(** The attempt did not produce a transform. *)
Definition failed (l : Lookup) : bool :=
  match l with Resolved _ => false | _ => true end.

(** What the attempts [i], ..., [i + n - 1] append to [missing]. *)
Definition attempts_log (env : Env) (i n : nat) : list string :=
  flat_map (fun j => missing_entry (aruco_tag_name env) (tf_lookup env j))
           (seq i n).

(** What a failed attempt writes before the timeout is checked. *)
Definition failed_events (env : Env) (l : Lookup) : list Event :=
  Print (LookingUp (aruco_tag_name env))
  :: match l with Raised ex => [Log Warn (LookupError ex)] | _ => [] end
  ++ [Log Error CouldNotDetect].

(** No event of the trace builds the controller or moves the base. *)
Definition quiet (tr : list Event) : bool :=
  forallb (fun e => negb (is_motion e)) tr.

(** ** Vocabulary of the further properties *)

(** An event the acquisition loop may produce. *)
Definition is_acquisition_event (e : Event) : bool :=
  match e with
  | Print _ | Log _ _ | SpinOnce | Sleep _ => true
  | _ => false
  end.


(** The goals [align_to_marker] sends for a transform and the default offset. *)
Definition goals_for (t : TransformStamped) : list Goal :=
  let c := compute_difference TF.quaternion_matrix TF.euler_from_quaternion
             (mkAlignToAruco t default_offset) in
  [base_goal "rotate_mobile_base" (corr_phi c);
   base_goal "translate_mobile_base" (corr_dist c);
   base_goal "rotate_mobile_base" (corr_theta c)].

(** The world in which the loop of [main] starts. *)
Definition loop_entry (t0 : Q) : World :=
  mkWorld t0 0 [Log Info WaitingForTransforms].

(** The events of [main] after the loop, given what the loop left behind
    and the number [n] of goals sent so far. *)
Definition closing_events (env : Env) (r : Acquired) (n : nat) : list Event :=
  match r with
  | (None, missing) =>
      [Log Error (TimeoutWaiting (String.concat ", " missing)); Shutdown]
  | (Some t, _) =>
      CreateActionClient
      :: (if server_ready env then
            let c := compute_difference TF.quaternion_matrix
                       TF.euler_from_quaternion (mkAlignToAruco t default_offset) in
            goal_events (actuator env n (base_goal "rotate_mobile_base" (corr_phi c)))
              "rotate_mobile_base" (corr_phi c)
            ++ goal_events
                 (actuator env (1 + n) (base_goal "translate_mobile_base" (corr_dist c)))
                 "translate_mobile_base" (corr_dist c)
            ++ goal_events
                 (actuator env (2 + n) (base_goal "rotate_mobile_base" (corr_theta c)))
                 "rotate_mobile_base" (corr_theta c)
          else [Log Error NoTrajectoryServer; SysExit])
      ++ [Shutdown]
  end.

(** A node that is shut down at the head of iteration [n]; the marker never
    shows and every iteration takes exactly [poll_interval]. *)
Definition node_stops_after (n : nat) : Env :=
  mkEnv "bowl" (fun i => (i <? n)%nat) (fun _ => NotAvailable)
        (fun _ => poll_interval) true
        (fun _ _ => mkGoalHandle true GoalStatus.STATUS_SUCCEEDED).

(** The marker resolves at once, but no trajectory server answers. *)
Definition no_trajectory_server : Env :=
  mkEnv "bowl" (fun _ => true)
        (fun _ => Resolved (trans_base sample_aligner))
        (fun _ => poll_interval) false
        (fun _ _ => mkGoalHandle true GoalStatus.STATUS_SUCCEEDED).

(** ** Elapsed time *)

(** The elapsed time [main] reads at the timeout check of iteration [i]:
    what the iterations before it took. *)
Fixpoint elapsed_at (env : Env) (i : nat) : Q :=
  match i with
  | O => 0
  | S j => elapsed_at env j + iteration_time env j
  end.

(** A transform buffer that resolves the marker at the 101st attempt, with
    iterations of two seconds. *)
Definition slow_then_found : Env :=
  mkEnv "bowl" (fun _ => true)
        (fun i => if (i <? 100)%nat then NotAvailable
                  else Resolved (trans_base sample_aligner))
        (fun _ => 2%Q) true
        (fun _ _ => mkGoalHandle true GoalStatus.STATUS_SUCCEEDED).

(** ** The distance in double precision *)

(** The model above reads doubles as reals.  This module reads the
    computation of [dist] on binary64 numbers instead, where squares can
    overflow. *)
Module F64.

Import PrimFloat.
Local Open Scope float_scope.

Record Vec4 : Type := vec4 { e0 : float; e1 : float; e2 : float; e3 : float }.
Record Mat4 : Type := mat4 { row0 : Vec4; row1 : Vec4; row2 : Vec4; row3 : Vec4 }.

(** The fields [compute_difference] reads from [self], as doubles. *)
Record AlignToAruco : Type := mkAlignToAruco {
  tx : float; ty : float; tz : float;
  qx : float; qy : float; qz : float; qw : float;
  offset : float
}.

(** [np.matmul] of a 4x4 array and a 4x1 column, each entry summed from left
    to right. *)
Definition dot (r c : Vec4) : float :=
  e0 r * e0 c + e1 r * e1 c + e2 r * e2 c + e3 r * e3 c.

Definition matmul (m : Mat4) (c : Vec4) : Vec4 :=
  vec4 (dot (row0 m) c) (dot (row1 m) c) (dot (row2 m) c) (dot (row3 m) c).

(** [numpy.finfo(float).eps] *)
Definition _FLOAT_EPS : float := 0x1p-52.

(** [TF.quaternion_matrix] on doubles. *)
Definition quaternion_matrix (x y z w : float) : Mat4 :=
  let Nq := w * w + x * x + y * y + z * z in
  if Nq <? _FLOAT_EPS then
    mat4 (vec4 1 0 0 0) (vec4 0 1 0 0) (vec4 0 0 1 0) (vec4 0 0 0 1)
  else
    let s := 2 / Nq in
    let X := x * s in
    let Y := y * s in
    let Z := z * s in
    let wX := w * X in let wY := w * Y in let wZ := w * Z in
    let xX := x * X in let xY := x * Y in let xZ := x * Z in
    let yY := y * Y in let yZ := y * Z in let zZ := z * Z in
    mat4 (vec4 (1 - (yY + zZ)) (xY - wZ) (xZ + wY) 0)
         (vec4 (xY + wZ) (1 - (xX + zZ)) (yZ - wX) 0)
         (vec4 (xZ - wY) (yZ + wX) (1 - (xX + yY)) 0)
         (vec4 0 0 0 1).

(** Lines 41 to 71 of [compute_difference] without line 70: the second
    component of the result.  [math.atan2] has no counterpart among the
    primitive operations on doubles, so [phi] and [theta] are left to the
    model on the reals. *)
Definition compute_difference_dist (self : AlignToAruco) : float :=
  let '(x, y, z, w) := (qx self, qy self, qz self, qw self) in
  let Rm := quaternion_matrix x y z w in
  let P_dash := vec4 0 (- offset self) 0 1 in
  let P := vec4 (tx self) (ty self) 0 1 in
  let X := matmul Rm P_dash in
  let P_base := vec4 (e0 X + e0 P) (e1 X + e1 P) (e2 X + e2 P) (e3 X + e3 P) in
  let P_base := vec4 (e0 P_base) (e1 P_base) (e2 P_base) 1 in
  let base_position_x := e0 P_base in
  let base_position_y := e1 P_base in
  sqrt (base_position_x * base_position_x + base_position_y * base_position_y).

(** The squared norm of the quaternion is exactly 1. *)
Definition unit_quaternion (self : AlignToAruco) : bool :=
  (qx self * qx self + qy self * qy self + qz self * qz self + qw self * qw self =? 1).

(** An upright marker 1e200 m ahead, with the default offset. *)
#[warnings="-inexact-float"]
Definition far_marker : AlignToAruco :=
  mkAlignToAruco 1e200 0 0 0 0 0 1 0.75.

End F64.

(** ** main under an operator interrupt *)

(** The [try] block of [main]: lines 180 to 182. *)
Definition try_block (env : Env) (trans_base : TransformStamped) : M unit :=
  align <- AlignToAruco_init env trans_base default_offset ;;
  match align with
  | Some align =>
      align_to_marker TF.quaternion_matrix TF.euler_from_quaternion env align
  | None => ret tt
  end.

(** [body] with KeyboardInterrupt raised after [k] of its events and caught
    by [except KeyboardInterrupt: pass]; [None] when no interrupt arrives.
    What [body] did up to the interrupt stays done, the rest never happens. *)
Definition interrupted (k : option nat) (body : M unit) : M unit :=
  fun w =>
    let w' := snd (body w) in
    match k with
    | None => (tt, w')
    | Some k =>
        let done := firstn k (skipn (List.length (trace w)) (trace w')) in
        (tt, mkWorld (now w') (goals_sent w + List.length (goals_of done))
               (trace w ++ done))
    end.

(** [main] with the operator's interrupt of lines 183 and 184: it arrives
    inside the [try] block after [k] of the block's events. *)
Definition main_interruptible (k : option nat) (env : Env) (fuel : nat)
  : M (option Acquired) :=
  start_time <- time_time ;;
  emit (Log Info WaitingForTransforms) ;;
  r <- acquire env start_time fuel 0 [] ;;
  match r with
  | None => ret None
  | Some (None, missing) =>
      emit (Log Error (TimeoutWaiting (String.concat ", " missing))) ;;
      emit Shutdown ;;
      ret r
  | Some (Some trans_base, _) =>
      interrupted k (try_block env trans_base) ;;
      emit Shutdown ;;
      ret r
  end.

(** The events of the [try] block when nothing interrupts it, [n] goals
    having been sent before. *)
Definition try_events (env : Env) (t : TransformStamped) (n : nat) : list Event :=
  CreateActionClient
  :: (if server_ready env then
        let c := compute_difference TF.quaternion_matrix
                   TF.euler_from_quaternion (mkAlignToAruco t default_offset) in
        goal_events (actuator env n (base_goal "rotate_mobile_base" (corr_phi c)))
          "rotate_mobile_base" (corr_phi c)
        ++ goal_events
             (actuator env (1 + n) (base_goal "translate_mobile_base" (corr_dist c)))
             "translate_mobile_base" (corr_dist c)
        ++ goal_events
             (actuator env (2 + n) (base_goal "rotate_mobile_base" (corr_theta c)))
             "rotate_mobile_base" (corr_theta c)
      else [Log Error NoTrajectoryServer; SysExit]).

(** The goals [main] sets out to send, given what the loop left behind. *)
Definition planned_goals (env : Env) (r : Acquired) : list Goal :=
  match r with
  | (Some t, _) => if server_ready env then goals_for t else []
  | (None, _) => []
  end.

(** The events left of [tr] when the interrupt arrives after [k] of them. *)
Definition cut (k : option nat) (tr : list Event) : list Event :=
  match k with None => tr | Some k => firstn k tr end.

(** * Properties *)

(** ** The arctangent *)

Lemma atan2_bound (y x : R) : - PI < atan2 y x <= PI.
Proof.
  pose proof PI_RGT_0 as Hpi.
  unfold atan2.
  destruct (Rlt_dec 0 x) as [Hx | Hx].
  - pose proof (atan_bound (y / x)). lra.
  - destruct (Rlt_dec x 0) as [Hx' | Hx'].
    + destruct (Rle_dec 0 y) as [Hy | Hy].
      * assert (Hq : y / x <= 0).
        { unfold Rdiv. rewrite <- (Rmult_0_l (/ x)).
          apply Rmult_le_compat_neg_l with (r := / x) in Hy.
          - lra.
          - left. now apply Rinv_lt_0_compat. }
        pose proof (atan_bound (y / x)) as Hb.
        assert (atan (y / x) <= 0).
        { destruct Hq as [Hq | Hq].
          - left. rewrite <- atan_0. now apply atan_increasing.
          - rewrite Hq, atan_0. lra. }
        lra.
      * assert (Hq : 0 < y / x).
        { unfold Rdiv. replace (y * / x) with ((- y) * (- / x)) by ring.
          apply Rmult_lt_0_compat; [lra |].
          apply Ropp_0_gt_lt_contravar. now apply Rinv_lt_0_compat. }
        pose proof (atan_bound (y / x)) as Hb.
        assert (0 < atan (y / x)).
        { rewrite <- atan_0. now apply atan_increasing. }
        lra.
    + destruct (Rlt_dec 0 y); [lra |].
      destruct (Rlt_dec y 0); lra.
Qed.

Lemma atan2_neg_x_nonneg_y (y x : R) :
  x < 0 -> 0 <= y -> atan2 y x = atan (y / x) + PI.
Proof.
  intros Hx Hy. unfold atan2.
  destruct (Rlt_dec 0 x); [lra |].
  destruct (Rlt_dec x 0); [| contradiction].
  destruct (Rle_dec 0 y); [reflexivity | contradiction].
Qed.

Lemma atan2_neg_x_neg_y (y x : R) :
  x < 0 -> y < 0 -> atan2 y x = atan (y / x) - PI.
Proof.
  intros Hx Hy. unfold atan2.
  destruct (Rlt_dec 0 x); [lra |].
  destruct (Rlt_dec x 0); [| contradiction].
  destruct (Rle_dec 0 y); [lra | reflexivity].
Qed.

Lemma atan2_origin : atan2 0 0 = 0.
Proof.
  unfold atan2.
  destruct (Rlt_dec 0 0); [lra |]. reflexivity.
Qed.

(** ** tf_transformations at the quaternions used below *)

Lemma FLOAT_EPS_small : TF._FLOAT_EPS < 1 / 4.
Proof.
  unfold TF._FLOAT_EPS.
  assert (H : 8 <= 2 ^ 52).
  { change 52%nat with (3 + 49)%nat. rewrite pow_add.
    assert (1 <= 2 ^ 49) by (apply pow_R1_Rle; lra).
    assert (2 ^ 3 = 8) by (simpl; ring). nra. }
  assert (H8 : / 2 ^ 52 <= / 8) by (apply Rinv_le_contravar; lra).
  lra.
Qed.

Lemma quaternion_matrix_identity :
  TF.quaternion_matrix identity_quaternion = identity4.
Proof.
  pose proof FLOAT_EPS_small.
  unfold TF.quaternion_matrix, identity_quaternion, identity4. simpl.
  destruct (Rlt_dec _ _) as [Hlt | _]; [lra |].
  repeat f_equal; field.
Qed.

Lemma quaternion_matrix_half_turn :
  TF.quaternion_matrix half_turn_quaternion = half_turn4.
Proof.
  pose proof FLOAT_EPS_small.
  unfold TF.quaternion_matrix, half_turn_quaternion, half_turn4. simpl.
  destruct (Rlt_dec _ _) as [Hlt | _]; [lra |].
  repeat f_equal; field.
Qed.

Lemma euler_half_turn :
  yaw_of (TF.euler_from_quaternion half_turn_quaternion) = PI.
Proof.
  pose proof FLOAT_EPS_small as He.
  unfold TF.euler_from_quaternion. rewrite quaternion_matrix_half_turn.
  unfold half_turn4; simpl.
  replace (-1 * -1 + 0 * 0) with 1 by ring. rewrite sqrt_1.
  destruct (Rlt_dec _ _) as [_ | Hn]; [| unfold TF._EPS4 in Hn; lra].
  unfold yaw_of; simpl.
  rewrite atan2_neg_x_nonneg_y by lra.
  replace (0 / -1) with 0 by field. rewrite atan_0. ring.
Qed.

Lemma euler_yaw_bound (q : Quaternion.t) :
  - PI < yaw_of (TF.euler_from_quaternion q) <= PI.
Proof.
  pose proof PI_RGT_0.
  unfold TF.euler_from_quaternion, yaw_of.
  destruct (Rlt_dec _ _); simpl; [apply atan2_bound | lra].
Qed.

Lemma identity_unit : unit_quaternion identity_quaternion.
Proof. unfold unit_quaternion, identity_quaternion; simpl. ring. Qed.

Lemma half_turn_unit : unit_quaternion half_turn_quaternion.
Proof. unfold unit_quaternion, half_turn_quaternion; simpl. ring. Qed.

(** ** compute_difference *)

(** Opens [self] and the roll-pitch-yaw triple the function reads. *)
Ltac open_correction self efq :=
  destruct self as [[?frame [[?tx ?ty ?tz] [?qx ?qy ?qz ?qw]]] ?off];
  unfold compute_difference; simpl;
  match goal with
  | |- context [efq ?q] => destruct (efq q) as [[?ax ?ay] ?az]
  end;
  unfold corr_phi, corr_dist, corr_theta; simpl.

Section ComputeDifferenceFacts.

Variable quaternion_matrix : Quaternion.t -> Mat4.
Variable euler_from_quaternion : Quaternion.t -> R * R * R.

Lemma theta_unfold (self : AlignToAruco) :
  corr_theta (compute_difference quaternion_matrix euler_from_quaternion self) =
  - corr_phi (compute_difference quaternion_matrix euler_from_quaternion self)
  + yaw_of (euler_from_quaternion (rotation (transform (trans_base self))))
  + PI.
Proof.
  unfold yaw_of.
  open_correction self euler_from_quaternion. reflexivity.
Qed.

Lemma phi_range (self : AlignToAruco) :
  - PI < corr_phi (compute_difference quaternion_matrix euler_from_quaternion self) <= PI.
Proof.
  open_correction self euler_from_quaternion. apply atan2_bound.
Qed.

(** C1: whatever the transform and the offset, the first two components
    of the result are the polar coordinates of the target point: with [Rm]
    the rotation matrix of the quaternion, [X = Rm . (0, -offset, 0, 1)],
    [Pv = (tx, ty, 0, 1)] and [Pb = X + Pv] with its last coordinate set to
    1, [phi = atan2 Pb.y Pb.x] and [dist = sqrt (Pb.x^2 + Pb.y^2)].  The
    coordinates of [Pb] are written out, and the whole result is unchanged
    when the height [tz] of the marker changes. *)
Theorem compute_difference_target_point (self : AlignToAruco) :
  let tf := transform (trans_base self) in
  let Rm := quaternion_matrix (rotation tf) in
  let X := matmul Rm (vec4 0 (- offset self) 0 1) in
  let Pv := vec4 (Vector3.x (translation tf)) (Vector3.y (translation tf)) 0 1 in
  let Pb := set_e3 (vadd X Pv) 1 in
  let c := compute_difference quaternion_matrix euler_from_quaternion self in
  corr_phi c = atan2 (e1 Pb) (e0 Pb)
  /\ corr_dist c = sqrt (e0 Pb ^ 2 + e1 Pb ^ 2)
  /\ e0 Pb = Vector3.x (translation tf) - offset self * e1 (row0 Rm) + e3 (row0 Rm)
  /\ e1 Pb = Vector3.y (translation tf) - offset self * e1 (row1 Rm) + e3 (row1 Rm)
  /\ e3 Pb = 1
  /\ forall tz' : R,
       compute_difference quaternion_matrix euler_from_quaternion
         (with_translation_z self tz') = c.
Proof.
  destruct self as [[frame [[tx ty tz] [qx qy qz qw]]] off].
  unfold compute_difference, with_translation_z; simpl.
  destruct (euler_from_quaternion (Quaternion.mk qx qy qz qw)) as [[ax ay] az].
  unfold corr_phi, corr_dist, dot; simpl.
  repeat split; ring.
Qed.

(** C2: the third component of the result is [- phi + yaw + PI], where
    [yaw] is the last angle of the roll-pitch-yaw decomposition of the
    quaternion; hence [phi + theta = yaw + PI]. *)
Theorem compute_difference_final_rotation (self : AlignToAruco) :
  let c := compute_difference quaternion_matrix euler_from_quaternion self in
  let yaw :=
    yaw_of (euler_from_quaternion (rotation (transform (trans_base self)))) in
  corr_theta c = - corr_phi c + yaw + PI
  /\ corr_phi c + corr_theta c = yaw + PI.
Proof.
  cbv zeta. rewrite theta_unfold. split; [reflexivity | ring].
Qed.

(** C8: for a unit quaternion and an offset that is not negative, the
    heading [phi] lies in (-PI, PI] and the distance is not negative.  Both
    are real numbers, so they are finite; neither hypothesis is needed for
    the bounds. *)
Theorem compute_difference_ranges (self : AlignToAruco) :
  unit_quaternion (rotation (transform (trans_base self))) ->
  0 <= offset self ->
  let c := compute_difference quaternion_matrix euler_from_quaternion self in
  - PI < corr_phi c <= PI /\ 0 <= corr_dist c.
Proof.
  intros _ _. split; [apply phi_range |].
  open_correction self euler_from_quaternion. apply sqrt_pos.
Qed.

End ComputeDifferenceFacts.

(** The bounds of C8 at the sample marker. *)
Lemma compute_difference_ranges_sample :
  let c := compute_difference TF.quaternion_matrix TF.euler_from_quaternion
             sample_aligner in
  - PI < corr_phi c <= PI /\ 0 <= corr_dist c.
Proof.
  apply (compute_difference_ranges TF.quaternion_matrix TF.euler_from_quaternion
           sample_aligner).
  - exact identity_unit.
  - unfold sample_aligner, aligner, default_offset; simpl. lra.
Defined.

(** C8, as the claim has it, fails on doubles: for the unit quaternion
    (0, 0, 0, 1), the offset 0.75 and a marker 1e200 m ahead, the square of
    the target's x coordinate overflows and the distance is infinite. *)
Lemma overflowing_distance_not_finite :
  F64.unit_quaternion F64.far_marker = true
  /\ PrimFloat.leb PrimFloat.zero (F64.offset F64.far_marker) = true
  /\ PrimFloat.is_finite (F64.tx F64.far_marker) = true
  /\ PrimFloat.is_finite (F64.compute_difference_dist F64.far_marker) = false
  /\ PrimFloat.is_infinity (F64.compute_difference_dist F64.far_marker) = true.
Proof. repeat split; vm_compute; reflexivity. Qed.

(** C9: a marker at [(0, offset, 0)] with the identity rotation puts the
    target point at the origin of the base frame: the distance is 0 and the
    heading is [atan2 0 0 = 0]. *)
Theorem compute_difference_at_standoff_point (off : R) :
  let c := compute_difference TF.quaternion_matrix TF.euler_from_quaternion
             (aligner 0 off identity_quaternion off) in
  corr_dist c = 0 /\ corr_phi c = 0.
Proof.
  unfold compute_difference, aligner; simpl.
  change (Quaternion.mk 0 0 0 1) with identity_quaternion.
  rewrite quaternion_matrix_identity.
  destruct (TF.euler_from_quaternion identity_quaternion) as [[ax ay] az].
  unfold corr_dist, corr_phi, identity4, matmul, dot, vadd, set_e3; simpl.
  replace (1 * 0 + 0 * - off + 0 * 0 + 0 * 1 + 0) with 0 by ring.
  replace (0 * 0 + 1 * - off + 0 * 0 + 0 * 1 + off) with 0 by ring.
  split.
  - replace (0 * (0 * 1) + 0 * (0 * 1)) with 0 by ring. apply sqrt_0.
  - apply atan2_origin.
Qed.

(** A marker behind the base, turned by a half-turn, asks for a final
    rotation of 11/4 PI. *)
Lemma theta_behind_half_turn :
  corr_theta (compute_difference TF.quaternion_matrix TF.euler_from_quaternion
                (aligner (-1) (-1) half_turn_quaternion 0)) = 11 * PI / 4.
Proof.
  pose proof euler_half_turn as Hy.
  unfold compute_difference, aligner; simpl.
  change (Quaternion.mk 0 0 1 0) with half_turn_quaternion.
  rewrite quaternion_matrix_half_turn.
  destruct (TF.euler_from_quaternion half_turn_quaternion) as [[ax ay] az].
  unfold yaw_of in Hy; simpl in Hy. subst az.
  unfold corr_theta, half_turn4, matmul, dot, vadd, set_e3; simpl.
  replace (-1 * 0 + 0 * - 0 + 0 * 0 + 0 * 1 + -1) with (-1) by ring.
  replace (0 * 0 + -1 * - 0 + 0 * 0 + 0 * 1 + -1) with (-1) by ring.
  rewrite atan2_neg_x_neg_y by lra.
  replace (-1 / -1) with 1 by field.
  rewrite atan_1. field.
Qed.

Lemma theta_near_three_pi (e : R) :
  0 < e < 1 ->
  corr_theta (compute_difference TF.quaternion_matrix TF.euler_from_quaternion
                (aligner (-1) (- tan e) half_turn_quaternion 0)) = 3 * PI - e.
Proof.
  intros He.
  pose proof euler_half_turn as Hy.
  pose proof PI2_1 as Hpi.
  assert (Ht : 0 < tan e) by (apply tan_gt_0; lra).
  unfold compute_difference, aligner; simpl.
  change (Quaternion.mk 0 0 1 0) with half_turn_quaternion.
  rewrite quaternion_matrix_half_turn.
  destruct (TF.euler_from_quaternion half_turn_quaternion) as [[ax ay] az].
  unfold yaw_of in Hy; simpl in Hy. subst az.
  unfold corr_theta, half_turn4, matmul, dot, vadd, set_e3; simpl.
  replace (-1 * 0 + 0 * - 0 + 0 * 0 + 0 * 1 + -1) with (-1) by ring.
  replace (0 * 0 + -1 * - 0 + 0 * 0 + 0 * 1 + - tan e) with (- tan e) by ring.
  rewrite atan2_neg_x_neg_y by lra.
  replace (- tan e / -1) with (tan e) by field.
  rewrite atan_tan by lra. ring.
Qed.

(** C10: the final rotation is not brought back into (-PI, PI]: some unit
    quaternion and offset give a [theta] of magnitude above PI; [theta] comes
    as close to 3 PI as one likes, and always lies strictly between - PI
    and 3 PI. *)
Theorem final_rotation_not_normalized :
  (exists self : AlignToAruco,
     unit_quaternion (rotation (transform (trans_base self)))
     /\ PI < Rabs (corr_theta
                     (compute_difference TF.quaternion_matrix
                        TF.euler_from_quaternion self)))
  /\ (forall eps : R, 0 < eps ->
      exists self : AlignToAruco,
        unit_quaternion (rotation (transform (trans_base self)))
        /\ 3 * PI - eps <
           corr_theta (compute_difference TF.quaternion_matrix
                         TF.euler_from_quaternion self))
  /\ (forall self : AlignToAruco,
        - PI <
        corr_theta (compute_difference TF.quaternion_matrix
                      TF.euler_from_quaternion self)
        < 3 * PI).
Proof.
  pose proof PI_RGT_0 as Hpi.
  split; [| split].
  - exists (aligner (-1) (-1) half_turn_quaternion 0).
    split; [exact half_turn_unit |].
    rewrite theta_behind_half_turn. rewrite Rabs_right; lra.
  - intros eps Heps.
    exists (aligner (-1) (- tan (Rmin eps 1 / 2)) half_turn_quaternion 0).
    split; [exact half_turn_unit |].
    assert (Hm : 0 < Rmin eps 1 <= 1).
    { split; [apply Rmin_glb_lt; lra | apply Rmin_r]. }
    assert (Hm' : Rmin eps 1 <= eps) by apply Rmin_l.
    rewrite theta_near_three_pi by lra. lra.
  - intros self.
    pose proof (theta_unfold TF.quaternion_matrix TF.euler_from_quaternion self) as Hth.
    pose proof (euler_yaw_bound (rotation (transform (trans_base self)))) as Hy.
    pose proof (phi_range TF.quaternion_matrix TF.euler_from_quaternion self) as Hphi.
    lra.
Qed.

(** ** align_to_marker *)

Lemma send_base_goal_blocking_world env joint_name inc w :
  snd (send_base_goal_blocking env joint_name inc w) =
  mkWorld (now w) (S (goals_sent w))
    (trace w
     ++ goal_events (actuator env (goals_sent w) (base_goal joint_name inc))
          joint_name inc).
Proof.
  unfold send_base_goal_blocking, goal_events, outcome_events, bind, emit,
    send_goal_async, base_goal; simpl.
  destruct (actuator env (goals_sent w) _) as [acc st]; simpl.
  destruct acc; simpl.
  - destruct (st =? GoalStatus.STATUS_SUCCEEDED)%Z; simpl;
      repeat rewrite <- app_assoc; reflexivity.
  - repeat rewrite <- app_assoc; reflexivity.
Qed.

Lemma goals_of_app tr1 tr2 :
  goals_of (tr1 ++ tr2) = goals_of tr1 ++ goals_of tr2.
Proof.
  induction tr1 as [| e tr1 IH]; simpl; [reflexivity |].
  destruct e; simpl; rewrite ?IH; reflexivity.
Qed.

Lemma goals_of_goal_events h j inc :
  goals_of (goal_events h j inc) = [base_goal j inc].
Proof.
  unfold goal_events, outcome_events; simpl.
  destruct (accepted h); simpl; [destruct (_ =? _)%Z |]; reflexivity.
Qed.


Section AlignToMarkerFacts.

Variable quaternion_matrix : Quaternion.t -> Mat4.
Variable euler_from_quaternion : Quaternion.t -> R * R * R.

(** The world after the three calls, whatever the action server answers. *)
Lemma align_to_marker_world env self w :
  let c := compute_difference quaternion_matrix euler_from_quaternion self in
  let n := goals_sent w in
  snd (align_to_marker quaternion_matrix euler_from_quaternion env self w) =
  mkWorld (now w) (3 + n)
    (trace w
     ++ goal_events
          (actuator env n (base_goal "rotate_mobile_base" (corr_phi c)))
          "rotate_mobile_base" (corr_phi c)
     ++ goal_events
          (actuator env (1 + n) (base_goal "translate_mobile_base" (corr_dist c)))
          "translate_mobile_base" (corr_dist c)
     ++ goal_events
          (actuator env (2 + n) (base_goal "rotate_mobile_base" (corr_theta c)))
          "rotate_mobile_base" (corr_theta c)).
Proof.
  intros c n. unfold align_to_marker. fold c.
  destruct c as [[phi dist] theta].
  unfold corr_phi, corr_dist, corr_theta; simpl fst; simpl snd.
  unfold bind at 1.
  pose proof (send_base_goal_blocking_world env "rotate_mobile_base" phi w) as H1.
  destruct (send_base_goal_blocking env "rotate_mobile_base" phi w) as [[] w1].
  simpl in H1. subst w1.
  unfold bind at 1.
  match goal with
  | |- context [send_base_goal_blocking env "translate_mobile_base" dist ?w0] =>
      pose proof (send_base_goal_blocking_world env "translate_mobile_base" dist w0)
        as H2;
      destruct (send_base_goal_blocking env "translate_mobile_base" dist w0)
        as [[] w2]
  end.
  simpl in H2. subst w2.
  rewrite send_base_goal_blocking_world. simpl.
  fold n. repeat rewrite <- app_assoc. reflexivity.
Qed.



(** Whatever the action server answers, the goals sent are the rotation by
    [phi], the translation by [dist] and the rotation by [theta], once each
    and in this order. *)
Theorem align_to_marker_sends_three_goals
    (env : Env) (self : AlignToAruco) (w : World) :
  let c := compute_difference quaternion_matrix euler_from_quaternion self in
  goals_of (trace (snd (align_to_marker quaternion_matrix euler_from_quaternion
                          env self w))) =
  goals_of (trace w)
  ++ [base_goal "rotate_mobile_base" (corr_phi c);
      base_goal "translate_mobile_base" (corr_dist c);
      base_goal "rotate_mobile_base" (corr_theta c)].
Proof.
  intros c. rewrite align_to_marker_world. fold c. cbn [trace].
  rewrite !goals_of_app, !goals_of_goal_events. reflexivity.
Qed.

End AlignToMarkerFacts.




(** ** The acquisition loop of main *)

Section Acquisition.

Local Open Scope Q_scope.

Lemma acquire_not_ok env st fuel i missing w :
  rclpy_ok env i = false ->
  acquire env st (S fuel) i missing w = (Some (None, missing), w).
Proof. intros H. simpl. rewrite H. reflexivity. Qed.

Lemma acquire_resolved env st fuel i missing w t :
  rclpy_ok env i = true ->
  tf_lookup env i = Resolved t ->
  acquire env st (S fuel) i missing w =
  (Some (Some t, missing),
   mkWorld (now w) (goals_sent w)
     (trace w ++ [Print (LookingUp (aruco_tag_name env)); Log Info FoundTag;
                  Log Warn RobotWillMove])).
Proof.
  intros Hok Hl. simpl. rewrite Hok, Hl. unfold bind, emit, ret; simpl.
  repeat rewrite <- app_assoc. reflexivity.
Qed.

Lemma acquire_failed env st fuel i missing w :
  rclpy_ok env i = true ->
  failed (tf_lookup env i) = true ->
  acquire env st (S fuel) i missing w =
  let missing' := (missing ++ missing_entry (aruco_tag_name env) (tf_lookup env i))%list in
  let tr := (trace w ++ failed_events env (tf_lookup env i))%list in
  if Qle_bool (now w - st) timeout_sec then
    acquire env st fuel (S i) missing'
      (mkWorld (now w + iteration_time env i) (goals_sent w)
         (tr ++ [SpinOnce; Sleep poll_interval]))
  else (Some (None, missing'), mkWorld (now w) (goals_sent w) tr).
Proof.
  intros Hok Hl. simpl. rewrite Hok.
  destruct (tf_lookup env i) as [| ex | t]; [| | discriminate];
    unfold bind, emit, ret, time_time, advance, failed_events; simpl;
    destruct (Qle_bool (now w - st) timeout_sec); simpl;
    repeat rewrite <- app_assoc; reflexivity.
Qed.

Lemma inject_nat_succ (i : nat) :
  inject_Z (Z.of_nat (S i)) == inject_Z (Z.of_nat i) + 1.
Proof. rewrite Nat2Z.inj_succ. unfold Z.succ. rewrite inject_Z_plus. reflexivity. Qed.

Lemma attempts_log_cons env i n :
  attempts_log env i (S n) =
  (missing_entry (aruco_tag_name env) (tf_lookup env i)
   ++ attempts_log env (S i) n)%list.
Proof. reflexivity. Qed.

Lemma attempts_log_length env i n :
  (forall j, (i <= j < i + n)%nat -> failed (tf_lookup env j) = true) ->
  List.length (attempts_log env i n) = n.
Proof.
  revert i. induction n as [| n IH]; intros i H; [reflexivity |].
  rewrite attempts_log_cons, length_app, IH.
  - specialize (H i ltac:(lia)).
    destruct (tf_lookup env i); [reflexivity | reflexivity | discriminate].
  - intros j Hj. apply H. lia.
Qed.

Lemma quiet_app tr1 tr2 : quiet (tr1 ++ tr2) = quiet tr1 && quiet tr2.
Proof. apply forallb_app. Qed.

Lemma quiet_failed_events env l : quiet (failed_events env l) = true.
Proof. destruct l; reflexivity. Qed.

(** The loop stops when every iteration moves the clock by at least
    [poll_interval]. *)
Lemma acquire_fuel env st :
  (forall j, poll_interval <= iteration_time env j) ->
  forall fuel i missing w,
    (max_iterations <= fuel + i)%nat ->
    (i < max_iterations)%nat ->
    inject_Z (Z.of_nat i) <= now w - st ->
    exists r w', acquire env st fuel i missing w = (Some r, w').
Proof.
  intros Hit. unfold max_iterations, poll_interval in *.
  induction fuel as [| fuel IH]; intros i missing w Hf Hi Hnow; [lia |].
  destruct (rclpy_ok env i) eqn:Hok.
  2:{ rewrite acquire_not_ok by assumption. eauto. }
  destruct (failed (tf_lookup env i)) eqn:Hl.
  2:{ destruct (tf_lookup env i) as [| ex | t] eqn:Ht; try discriminate.
      rewrite (acquire_resolved _ _ _ _ _ _ t) by assumption. eauto. }
  rewrite acquire_failed by assumption. cbv zeta.
  destruct (Qle_bool (now w - st) timeout_sec) eqn:Hq; [| eauto].
  apply Qle_bool_iff in Hq. unfold timeout_sec in Hq.
  assert (Hi' : (i <= 120)%nat).
  { assert (Hz : inject_Z (Z.of_nat i) <= inject_Z 120) by
      (change (inject_Z 120) with 120; lra).
    rewrite <- Zle_Qle in Hz. lia. }
  apply IH; [lia | lia |].
  cbn [now]. rewrite inject_nat_succ. specialize (Hit i). lra.
Qed.

(** However it ends, the loop leaves within [timeout_sec + D] when no
    iteration takes more than [D]. *)
Lemma acquire_deadline env st D :
  (forall j, iteration_time env j <= D) ->
  forall fuel i missing w r w',
    now w - st <= timeout_sec + D ->
    acquire env st fuel i missing w = (r, w') ->
    now w' - st <= timeout_sec + D.
Proof.
  intros Hit.
  induction fuel as [| fuel IH]; intros i missing w r w' Hnow Hacq.
  - simpl in Hacq. injection Hacq as _ <-. exact Hnow.
  - destruct (rclpy_ok env i) eqn:Hok.
    2:{ rewrite acquire_not_ok in Hacq by assumption.
        injection Hacq as _ <-. exact Hnow. }
    destruct (failed (tf_lookup env i)) eqn:Hl.
    2:{ destruct (tf_lookup env i) as [| ex | t] eqn:Ht; try discriminate.
        rewrite (acquire_resolved _ _ _ _ _ _ t) in Hacq by assumption.
        injection Hacq as _ <-. exact Hnow. }
    rewrite acquire_failed in Hacq by assumption. cbv zeta in Hacq.
    destruct (Qle_bool (now w - st) timeout_sec) eqn:Hq.
    + apply Qle_bool_iff in Hq.
      apply IH in Hacq; [exact Hacq |].
      cbn [now]. specialize (Hit i). lra.
    + injection Hacq as _ <-. exact Hnow.
Qed.

(** What the loop has done when it stops: it sent no goal, wrote only to the
    logger, and [missing] grew by one entry per failed attempt. *)
Lemma acquire_log env st :
  forall fuel i missing w r w',
    acquire env st fuel i missing w = (Some r, w') ->
    goals_sent w' = goals_sent w
    /\ (exists new, trace w' = (trace w ++ new)%list /\ quiet new = true)
    /\ exists n : nat,
         snd r = (missing ++ attempts_log env i n)%list
         /\ (forall j, (i <= j < i + n)%nat ->
               rclpy_ok env j = true /\ failed (tf_lookup env j) = true)
         /\ match fst r with
            | Some t =>
                rclpy_ok env (i + n) = true /\ tf_lookup env (i + n) = Resolved t
            | None =>
                rclpy_ok env (i + n) = false
                \/ ((0 < n)%nat /\ timeout_sec < now w' - st)
            end.
Proof.
  induction fuel as [| fuel IH]; intros i missing w r w' Hacq;
    [discriminate |].
  destruct (rclpy_ok env i) eqn:Hok.
  2:{ rewrite acquire_not_ok in Hacq by assumption.
      injection Hacq as <- <-. split; [reflexivity |]. split.
      - exists []. rewrite app_nil_r. split; reflexivity.
      - exists 0%nat. simpl. rewrite app_nil_r, Nat.add_0_r.
        split; [reflexivity |]. split; [intros j Hj; lia | now left]. }
  destruct (failed (tf_lookup env i)) eqn:Hl.
  2:{ destruct (tf_lookup env i) as [| ex | t] eqn:Ht; try discriminate.
      rewrite (acquire_resolved _ _ _ _ _ _ t) in Hacq by assumption.
      injection Hacq as <- <-. split; [reflexivity |]. split.
      - eexists. split; reflexivity.
      - exists 0%nat. simpl. rewrite app_nil_r, Nat.add_0_r.
        split; [reflexivity |]. split; [intros j Hj; lia | now split]. }
  rewrite acquire_failed in Hacq by assumption. cbv zeta in Hacq.
  destruct (Qle_bool (now w - st) timeout_sec) eqn:Hq.
  - apply IH in Hacq. cbn [goals_sent trace] in Hacq.
    destruct Hacq as [Hg [[new [Htr Hquiet]] [n [Hm [Hfail Hend]]]]].
    split; [exact Hg |]. split.
    + exists (failed_events env (tf_lookup env i) ++ [SpinOnce; Sleep poll_interval] ++ new)%list.
      split.
      * rewrite Htr. repeat rewrite <- app_assoc. reflexivity.
      * rewrite !quiet_app, quiet_failed_events, Hquiet. reflexivity.
    + exists (S n). split; [| split].
      * rewrite Hm, attempts_log_cons, app_assoc. reflexivity.
      * intros j Hj. destruct (Nat.eq_dec j i) as [-> | Hne]; [now split |].
        apply Hfail. lia.
      * replace (i + S n)%nat with (S i + n)%nat by lia.
        destruct (fst r); [exact Hend |].
        destruct Hend as [Hend | [_ Hend]]; [now left | right].
        split; [lia | exact Hend].
  - injection Hacq as <- <-. cbn [goals_sent trace now fst snd].
    split; [reflexivity |]. split.
    + exists (failed_events env (tf_lookup env i)).
      split; [reflexivity | apply quiet_failed_events].
    + exists 1%nat. split; [| split].
      * rewrite attempts_log_cons. simpl. rewrite app_nil_r. reflexivity.
      * intros j Hj. replace j with i by lia. now split.
      * right. split; [lia |].
        apply Qnot_le_lt. intros Hle. apply Qle_bool_iff in Hle. congruence.
Qed.

(** C7, as the code has it: when every iteration moves the clock by at
    least [poll_interval], the loop stops within [max_iterations] iterations,
    with or without a transform; and when no iteration takes more than [D],
    it stops within [timeout_sec + D] of the start.  With iterations of
    exactly [poll_interval] this is [timeout_sec + poll_interval]. *)
Theorem acquire_terminates_within_deadline (env : Env) (t0 D : Q) :
  (forall i, poll_interval <= iteration_time env i <= D) ->
  exists (r : Acquired) (w' : World),
    acquire env t0 max_iterations 0 [] (initial_world t0) = (Some r, w')
    /\ now w' - t0 <= timeout_sec + D.
Proof.
  intros Hit.
  destruct (acquire_fuel env t0 (fun j => proj1 (Hit j)) max_iterations 0 []
              (initial_world t0)) as [r [w' Hacq]].
  - lia.
  - unfold max_iterations. lia.
  - change (0 <= t0 - t0). lra.
  - exists r, w'. split; [exact Hacq |].
    apply (acquire_deadline env t0 D (fun j => proj2 (Hit j)) _ _ _ _ _ _)
      with (2 := Hacq).
    pose proof (Hit 0%nat) as [H1 H2]. unfold poll_interval, timeout_sec in *.
    cbn. lra.
Qed.

(** The amended C7 on a clock that ticks once per iteration: the loop stops
    within [timeout_sec + poll_interval]. *)
Lemma acquire_terminates_unit_clock :
  exists (r : Acquired) (w' : World),
    acquire (never_found 1) 0 max_iterations 0 [] (initial_world 0) = (Some r, w')
    /\ now w' - 0 <= timeout_sec + 1.
Proof.
  apply (acquire_terminates_within_deadline (never_found 1) 0 1).
  intros i. unfold poll_interval. simpl. lra.
Defined.

(** C7, as the claim has it, fails: with iterations of two seconds the loop
    gives up 122 seconds after the start, later than
    [timeout_sec + poll_interval]. *)
Lemma slow_iterations_miss_deadline :
  (forall i, poll_interval <= iteration_time (never_found 2) i)
  /\ exists (r : Acquired) (w' : World),
       acquire (never_found 2) 0 max_iterations 0 [] (initial_world 0) = (Some r, w')
       /\ fst r = None
       /\ timeout_sec + poll_interval < now w' - 0.
Proof.
  split.
  - intros i. unfold poll_interval. simpl. lra.
  - eexists. eexists. split; [vm_compute; reflexivity |].
    split; [reflexivity |]. vm_compute. reflexivity.
Qed.

(** C5: when the node stays up, no attempt resolves the marker and every
    iteration moves the clock by at least [poll_interval], [main] returns
    with the timeout exceeded; its last two events are the error that
    carries the joined attempt log and the shutdown; before them it neither
    builds the controller nor sends a goal nor waits for a result. *)
Theorem timeout_without_marker_no_motion (env : Env) (t0 : Q) :
  (forall i, rclpy_ok env i = true) ->
  (forall i, failed (tf_lookup env i) = true) ->
  (forall i, poll_interval <= iteration_time env i) ->
  exists (n : nat) (before : list Event) (w' : World),
    main env max_iterations (initial_world t0)
      = (Some (None, attempts_log env 0 n), w')
    /\ List.length (attempts_log env 0 n) = n
    /\ timeout_sec < now w' - t0
    /\ trace w' =
         (before
          ++ [Log Error (TimeoutWaiting (String.concat ", " (attempts_log env 0 n)));
              Shutdown])%list
    /\ quiet before = true
    /\ goals_sent w' = 0%nat.
Proof.
  intros Hok Hfail Hit.
  destruct (acquire_fuel env t0 Hit max_iterations 0 []
              (mkWorld t0 0 [Log Info WaitingForTransforms]))
    as [r [w1 Hacq]].
  - lia.
  - unfold max_iterations. lia.
  - change (0 <= t0 - t0). lra.
  - destruct (acquire_log env t0 _ _ _ _ _ _ Hacq)
      as [Hg [[new [Htr Hquiet]] [n [Hm [_ Hend]]]]].
    destruct r as [tb missing]. cbn [fst snd] in *.
    destruct tb as [t |].
    { destruct Hend as [_ Hend]. specialize (Hfail (0 + n)%nat).
      rewrite Hend in Hfail. discriminate. }
    destruct Hend as [Hend | [_ Hend]]; [rewrite Hok in Hend; discriminate |].
    cbn [app] in Hm. subst missing.
    exists n, (Log Info WaitingForTransforms :: new), 
      (mkWorld (now w1) (goals_sent w1)
         (trace w1 ++ [Log Error (TimeoutWaiting (String.concat ", " (attempts_log env 0 n)));
                       Shutdown])).
    split; [| split; [| split; [| split; [| split]]]].
    + unfold main, bind at 1, time_time, initial_world. cbn [now].
      unfold bind at 1, emit at 1. cbn [now goals_sent trace app].
      unfold bind at 1. rewrite Hacq.
      unfold bind, emit, ret. cbn [now goals_sent trace].
      rewrite <- app_assoc. reflexivity.
    + apply attempts_log_length. intros j _. apply Hfail.
    + exact Hend.
    + cbn [trace]. rewrite Htr. reflexivity.
    + cbn [quiet forallb is_motion negb andb]. exact Hquiet.
    + exact Hg.
Qed.

(** C5 where the marker never shows and the clock ticks once per
    iteration. *)
Lemma timeout_without_marker_sample :
  exists (n : nat) (before : list Event) (w' : World),
    main (never_found 1) max_iterations (initial_world 0)
      = (Some (None, attempts_log (never_found 1) 0 n), w')
    /\ List.length (attempts_log (never_found 1) 0 n) = n
    /\ timeout_sec < now w' - 0
    /\ trace w' =
         (before
          ++ [Log Error (TimeoutWaiting
                (String.concat ", " (attempts_log (never_found 1) 0 n)));
              Shutdown])%list
    /\ quiet before = true
    /\ goals_sent w' = 0%nat.
Proof.
  apply (timeout_without_marker_no_motion (never_found 1) 0).
  - intros i. reflexivity.
  - intros i. reflexivity.
  - intros i. unfold poll_interval. simpl. lra.
Defined.

(** [k] failed attempts whose timeout checks all pass bring the loop to
    iteration [i + k] with the log grown by their entries. *)
Lemma acquire_failed_run env t0 :
  forall k i missing w fuel,
    (forall j, (i <= j < i + k)%nat ->
       rclpy_ok env j = true /\ failed (tf_lookup env j) = true) ->
    (forall j, (i <= j < i + k)%nat -> elapsed_at env j <= timeout_sec) ->
    now w - t0 == elapsed_at env i ->
    exists w1,
      acquire env t0 (k + fuel) i missing w
        = acquire env t0 fuel (i + k) (missing ++ attempts_log env i k)%list w1
      /\ now w1 - t0 == elapsed_at env (i + k).
Proof.
  induction k as [| k IH]; intros i missing w fuel Hrun Hel Hnow.
  - exists w. cbn [Nat.add attempts_log seq flat_map].
    rewrite app_nil_r, Nat.add_0_r.
    split; [reflexivity | exact Hnow].
  - destruct (Hrun i ltac:(lia)) as [Hok Hfail].
    cbn [Nat.add]. rewrite acquire_failed by assumption. cbv zeta.
    assert (Hq : Qle_bool (now w - t0) timeout_sec = true).
    { apply Qle_bool_iff. rewrite Hnow. apply Hel. lia. }
    rewrite Hq.
    match goal with
    | |- context [acquire env t0 (k + fuel) (S i) ?m ?w0] =>
        destruct (IH (S i) m w0 fuel) as [w1 [Hacq Hnow1]]
    end.
    + intros j Hj. apply Hrun. lia.
    + intros j Hj. apply Hel. lia.
    + cbn [now elapsed_at]. rewrite <- Hnow. ring.
    + exists w1. rewrite Hacq.
      replace (S i + k)%nat with (i + S k)%nat in * by lia.
      rewrite attempts_log_cons, app_assoc.
      split; [reflexivity | exact Hnow1].
Qed.

(** C6, as the code has it: when the first [N] attempts fail, by a refusal
    of [can_transform] or by an exception, the next one succeeds, and the
    elapsed time read at the timeout check of each failed attempt does not
    exceed [timeout_sec], the loop stops at that success with the transform
    found and a log of exactly [N] entries, one per failed attempt; the entry
    of an exception differs from the entry of a frame that is not
    available. *)
Theorem acquire_after_failed_attempts (env : Env) (t0 : Q) (N : nat) (t : TransformStamped) :
  (forall i, (i <= N)%nat -> rclpy_ok env i = true) ->
  (forall i, (i < N)%nat -> failed (tf_lookup env i) = true) ->
  tf_lookup env N = Resolved t ->
  (forall i, (i < N)%nat -> elapsed_at env i <= timeout_sec) ->
  forall fuel : nat, (N < fuel)%nat ->
    fst (acquire env t0 fuel 0 [] (initial_world t0))
      = Some (Some t, attempts_log env 0 N)
    /\ List.length (attempts_log env 0 N) = N
    /\ forall ex : string,
         missing_entry (aruco_tag_name env) (Raised ex)
         <> missing_entry (aruco_tag_name env) NotAvailable.
Proof.
  intros Hok Hfail Hres Hel fuel Hfuel.
  split; [| split].
  - destruct (acquire_failed_run env t0 N 0%nat [] (initial_world t0) (fuel - N))
      as [w1 [Hacq _]].
    + intros j Hj. split; [apply Hok | apply Hfail]; lia.
    + intros j Hj. apply Hel. lia.
    + cbn [initial_world now elapsed_at]. ring.
    + replace (N + (fuel - N))%nat with fuel in Hacq by lia.
      rewrite Hacq. cbn [Nat.add app].
      destruct (fuel - N)%nat as [| f] eqn:Hf; [lia |].
      rewrite (acquire_resolved _ _ _ _ _ _ t); [reflexivity | apply Hok; lia | exact Hres].
  - apply attempts_log_length. intros j Hj. apply Hfail. lia.
  - intros ex. simpl. intros H. discriminate.
Qed.

(** The amended C6 where the buffer says no, raises, then resolves the
    marker. *)
Lemma acquire_after_two_failed_attempts :
  fst (acquire found_at_third_attempt 0 3 0 [] (initial_world 0))
    = Some (Some (trans_base sample_aligner),
            attempts_log found_at_third_attempt 0 2)
  /\ List.length (attempts_log found_at_third_attempt 0 2) = 2%nat
  /\ forall ex : string,
       missing_entry (aruco_tag_name found_at_third_attempt) (Raised ex)
       <> missing_entry (aruco_tag_name found_at_third_attempt) NotAvailable.
Proof.
  apply (acquire_after_failed_attempts found_at_third_attempt 0 2 (trans_base sample_aligner)).
  - intros i _. reflexivity.
  - intros [| [| i]] Hi; [reflexivity | reflexivity | lia].
  - reflexivity.
  - intros [| [| i]] Hi; [vm_compute; discriminate | vm_compute; discriminate | lia].
  - lia.
Defined.

(** C6, as the claim has it, fails: [N = 100] attempts fail and the next
    succeeds, with [N * poll_interval < timeout_sec], but the iterations take
    two seconds each; the loop gives up at the 62nd failed attempt and holds
    no transform. *)
Lemma slow_attempts_time_out_before_success :
  inject_Z (Z.of_nat 100) * poll_interval < timeout_sec
  /\ (forall i, rclpy_ok slow_then_found i = true)
  /\ (forall i, (i < 100)%nat -> failed (tf_lookup slow_then_found i) = true)
  /\ tf_lookup slow_then_found 100 = Resolved (trans_base sample_aligner)
  /\ (forall i, poll_interval <= iteration_time slow_then_found i)
  /\ fst (acquire slow_then_found 0 200 0 [] (initial_world 0))
       = Some (None, attempts_log slow_then_found 0 62)
  /\ List.length (attempts_log slow_then_found 0 62) = 62%nat.
Proof.
  split; [reflexivity |]. split; [reflexivity |]. split.
  { intros i Hi. apply Nat.ltb_lt in Hi. simpl. rewrite Hi. reflexivity. }
  split; [reflexivity |]. split.
  { intros i. unfold poll_interval. simpl. lra. }
  split; [vm_compute; reflexivity | vm_compute; reflexivity].
Qed.

End Acquisition.

(** * Further properties *)

(** ** The geometry of the correction *)

Lemma sqrt_scale (x y : R) :
  0 < x -> sqrt (x ^ 2 + y ^ 2) = x * sqrt (1 + (y / x)²).
Proof.
  intros Hx.
  rewrite <- (sqrt_pow2 x) at 2 by lra.
  rewrite <- sqrt_mult.
  - f_equal. unfold Rsqr. field. lra.
  - apply pow2_ge_0.
  - unfold Rsqr. nra.
Qed.

Lemma sqrt_one_plus_sqr_pos (t : R) : 0 < sqrt (1 + t²).
Proof. apply sqrt_lt_R0. unfold Rsqr. nra. Qed.

Lemma atan2_polar (y x : R) :
  sqrt (x ^ 2 + y ^ 2) * cos (atan2 y x) = x
  /\ sqrt (x ^ 2 + y ^ 2) * sin (atan2 y x) = y.
Proof.
  unfold atan2.
  destruct (Rlt_dec 0 x) as [Hx | Hx].
  - rewrite cos_atan, sin_atan, sqrt_scale by assumption.
    pose proof (sqrt_one_plus_sqr_pos (y / x)).
    split; field; lra.
  - destruct (Rlt_dec x 0) as [Hx' | Hx'].
    + assert (Hs : sqrt (x ^ 2 + y ^ 2) = - x * sqrt (1 + (y / x)²)).
      { replace (x ^ 2) with ((- x) ^ 2) by ring.
        rewrite sqrt_scale by lra.
        replace ((y / - x)²) with ((y / x)²) by (unfold Rsqr; field; lra).
        reflexivity. }
      pose proof (sqrt_one_plus_sqr_pos (y / x)).
      destruct (Rle_dec 0 y) as [Hy | Hy].
      * rewrite neg_cos, neg_sin, cos_atan, sin_atan, Hs. split; field; lra.
      * replace (atan (y / x) - PI) with (- (- atan (y / x) + PI)) by ring.
        rewrite cos_neg, sin_neg, neg_cos, neg_sin, cos_neg, sin_neg,
          cos_atan, sin_atan, Hs.
        split; field; lra.
    + assert (x = 0) by lra. subst x.
      replace (0 ^ 2 + y ^ 2) with (y ^ 2) by ring.
      destruct (Rlt_dec 0 y) as [Hy | Hy].
      * rewrite sqrt_pow2, cos_PI2, sin_PI2 by lra. split; ring.
      * destruct (Rlt_dec y 0) as [Hy' | Hy'].
        -- replace (y ^ 2) with ((- y) ^ 2) by ring.
           rewrite sqrt_pow2, cos_neg, sin_neg, cos_PI2, sin_PI2 by lra.
           split; ring.
        -- assert (y = 0) by lra. subst y.
           replace (0 ^ 2) with 0 by ring. rewrite sqrt_0. split; ring.
Qed.

Lemma sqrt_sum_sqr_zero (x y : R) :
  sqrt (x ^ 2 + y ^ 2) = 0 <-> x = 0 /\ y = 0.
Proof.
  split.
  - intros H. apply sqrt_eq_0 in H; [| nra]. split; nra.
  - intros [-> ->]. replace (0 ^ 2 + 0 ^ 2) with 0 by ring. apply sqrt_0.
Qed.

(** Minkowski's inequality in the plane. *)
Lemma norm_triangle (a b u v : R) :
  sqrt ((a + u) ^ 2 + (b + v) ^ 2)
  <= sqrt (a ^ 2 + b ^ 2) + sqrt (u ^ 2 + v ^ 2).
Proof.
  set (p := sqrt (a ^ 2 + b ^ 2)).
  set (q := sqrt (u ^ 2 + v ^ 2)).
  assert (Hp : 0 <= p) by apply sqrt_pos.
  assert (Hq : 0 <= q) by apply sqrt_pos.
  assert (Hp2 : p * p = a ^ 2 + b ^ 2) by (apply sqrt_sqrt; nra).
  assert (Hq2 : q * q = u ^ 2 + v ^ 2) by (apply sqrt_sqrt; nra).
  clearbody p q.
  assert (Hcs : a * u + b * v <= p * q).
  { destruct (Rle_dec (a * u + b * v) (p * q)) as [Hn | Hn]; [exact Hn |].
    apply Rnot_le_lt in Hn. exfalso.
    assert (Hpq0 : 0 <= p * q) by (apply Rmult_le_pos; assumption).
    assert (Hsq : (a * u + b * v) * (a * u + b * v) <= (p * q) * (p * q)).
    { replace ((p * q) * (p * q)) with ((p * p) * (q * q)) by ring.
      rewrite Hp2, Hq2.
      assert (0 <= (a * v - b * u) ^ 2) by apply pow2_ge_0. nra. }
    assert (Hlt : (p * q) * (p * q) < (a * u + b * v) * (a * u + b * v))
      by (apply Rmult_le_0_lt_compat; lra).
    lra. }
  assert (Hpq : 0 <= p + q) by lra.
  rewrite <- (sqrt_pow2 (p + q) Hpq).
  apply sqrt_le_1_alt. nra.
Qed.

Lemma unit_column (q : Quaternion.t) :
  unit_quaternion q ->
  let M := TF.quaternion_matrix q in
  e1 (row0 M) = 2 * (Quaternion.x q * Quaternion.y q - Quaternion.w q * Quaternion.z q)
  /\ e1 (row1 M) = 1 - 2 * (Quaternion.x q * Quaternion.x q + Quaternion.z q * Quaternion.z q)
  /\ e3 (row0 M) = 0 /\ e3 (row1 M) = 0.
Proof.
  destruct q as [x y z w]. unfold unit_quaternion; simpl. intros Hu.
  pose proof FLOAT_EPS_small.
  unfold TF.quaternion_matrix; simpl.
  replace (w * w + x * x + y * y + z * z) with 1 by lra.
  destruct (Rlt_dec 1 TF._FLOAT_EPS); [lra |]. simpl.
  repeat split; field.
Qed.

Section TargetPoint.

Variable quaternion_matrix : Quaternion.t -> Mat4.
Variable euler_from_quaternion : Quaternion.t -> R * R * R.

Lemma compute_difference_unfold (self : AlignToAruco) :
  let tf := transform (trans_base self) in
  let Rm := quaternion_matrix (rotation tf) in
  let bx := Vector3.x (translation tf) - offset self * e1 (row0 Rm) + e3 (row0 Rm) in
  let by_ := Vector3.y (translation tf) - offset self * e1 (row1 Rm) + e3 (row1 Rm) in
  compute_difference quaternion_matrix euler_from_quaternion self =
  (atan2 by_ bx, sqrt (bx ^ 2 + by_ ^ 2),
   - atan2 by_ bx + yaw_of (euler_from_quaternion (rotation tf)) + PI).
Proof.
  destruct self as [[frame [[tx ty tz] [qx qy qz qw]]] off].
  unfold compute_difference, yaw_of; simpl.
  destruct (euler_from_quaternion (Quaternion.mk qx qy qz qw)) as [[ax ay] az].
  unfold dot; simpl.
  replace (e0 (row0 (quaternion_matrix (Quaternion.mk qx qy qz qw))) * 0 +
           e1 (row0 (quaternion_matrix (Quaternion.mk qx qy qz qw))) * - off +
           e2 (row0 (quaternion_matrix (Quaternion.mk qx qy qz qw))) * 0 +
           e3 (row0 (quaternion_matrix (Quaternion.mk qx qy qz qw))) * 1 + tx)
    with (tx - off * e1 (row0 (quaternion_matrix (Quaternion.mk qx qy qz qw)))
          + e3 (row0 (quaternion_matrix (Quaternion.mk qx qy qz qw)))) by ring.
  replace (e0 (row1 (quaternion_matrix (Quaternion.mk qx qy qz qw))) * 0 +
           e1 (row1 (quaternion_matrix (Quaternion.mk qx qy qz qw))) * - off +
           e2 (row1 (quaternion_matrix (Quaternion.mk qx qy qz qw))) * 0 +
           e3 (row1 (quaternion_matrix (Quaternion.mk qx qy qz qw))) * 1 + ty)
    with (ty - off * e1 (row1 (quaternion_matrix (Quaternion.mk qx qy qz qw)))
          + e3 (row1 (quaternion_matrix (Quaternion.mk qx qy qz qw)))) by ring.
  reflexivity.
Qed.

(** X2: turning by [phi] and then driving [dist] straight ahead from the
    origin of the base frame ends exactly on the target point, the marker's
    planar position moved by [-offset] along the second column of the
    rotation matrix. *)
Theorem rotate_then_translate_reaches_target (self : AlignToAruco) :
  let tf := transform (trans_base self) in
  let Rm := quaternion_matrix (rotation tf) in
  let c := compute_difference quaternion_matrix euler_from_quaternion self in
  corr_dist c * cos (corr_phi c)
    = Vector3.x (translation tf) - offset self * e1 (row0 Rm) + e3 (row0 Rm)
  /\ corr_dist c * sin (corr_phi c)
    = Vector3.y (translation tf) - offset self * e1 (row1 Rm) + e3 (row1 Rm).
Proof.
  cbv zeta. rewrite compute_difference_unfold.
  unfold corr_dist, corr_phi; simpl fst; simpl snd.
  apply atan2_polar.
Qed.

(** X3: on the reals, the distance is 0 exactly when the base already stands
    on the target point; the heading is then [atan2 0 0 = 0] and the final
    rotation is the yaw plus a half-turn. *)
Theorem zero_distance_iff_on_target (self : AlignToAruco) :
  let tf := transform (trans_base self) in
  let Rm := quaternion_matrix (rotation tf) in
  let c := compute_difference quaternion_matrix euler_from_quaternion self in
  (corr_dist c = 0 <->
     Vector3.x (translation tf) - offset self * e1 (row0 Rm) + e3 (row0 Rm) = 0
     /\ Vector3.y (translation tf) - offset self * e1 (row1 Rm) + e3 (row1 Rm) = 0)
  /\ (corr_dist c = 0 ->
      corr_phi c = 0
      /\ corr_theta c = yaw_of (euler_from_quaternion (rotation tf)) + PI).
Proof.
  cbv zeta. rewrite compute_difference_unfold.
  unfold corr_dist, corr_phi, corr_theta; simpl fst; simpl snd.
  split; [apply sqrt_sum_sqr_zero |].
  intros H. apply sqrt_sum_sqr_zero in H. destruct H as [-> ->].
  rewrite atan2_origin. split; [reflexivity | ring].
Qed.
End TargetPoint.

(** X4: on the reals, for a unit quaternion, the squared distance between
    the point reached by the first two motions and the marker's planar
    position is [offset^2 * (1 - tilt^2)], where
    [tilt = 2 * (qy * qz + qw * qx)] is the vertical component of the marker's
    lateral axis.  So the point lies within [|offset|] of the marker, at
    exactly [|offset|] if and only if the offset or the tilt is 0 (as for an
    upright marker), and strictly closer otherwise. *)
Theorem target_within_offset_of_marker (self : AlignToAruco) :
  let tf := transform (trans_base self) in
  let q := rotation tf in
  let c := compute_difference TF.quaternion_matrix TF.euler_from_quaternion self in
  let px := corr_dist c * cos (corr_phi c) in
  let py := corr_dist c * sin (corr_phi c) in
  let tilt := 2 * (Quaternion.y q * Quaternion.z q + Quaternion.w q * Quaternion.x q) in
  unit_quaternion q ->
  (px - Vector3.x (translation tf)) ^ 2 + (py - Vector3.y (translation tf)) ^ 2
    = offset self ^ 2 * (1 - tilt ^ 2)
  /\ (px - Vector3.x (translation tf)) ^ 2 + (py - Vector3.y (translation tf)) ^ 2
     <= offset self ^ 2
  /\ ((px - Vector3.x (translation tf)) ^ 2 + (py - Vector3.y (translation tf)) ^ 2
        = offset self ^ 2
      <-> offset self = 0 \/ tilt = 0)
  /\ (offset self <> 0 -> tilt <> 0 ->
      (px - Vector3.x (translation tf)) ^ 2 + (py - Vector3.y (translation tf)) ^ 2
        < offset self ^ 2)
  /\ (Quaternion.x q = 0 -> Quaternion.y q = 0 ->
      (px - Vector3.x (translation tf)) ^ 2 + (py - Vector3.y (translation tf)) ^ 2
        = offset self ^ 2).
Proof.
  intros tf q c px py tilt Hu.
  assert (Hxy : px = Vector3.x (translation tf)
                     - offset self * e1 (row0 (TF.quaternion_matrix q))
                     + e3 (row0 (TF.quaternion_matrix q))
                /\ py = Vector3.y (translation tf)
                        - offset self * e1 (row1 (TF.quaternion_matrix q))
                        + e3 (row1 (TF.quaternion_matrix q))).
  { unfold px, py, c. rewrite compute_difference_unfold.
    unfold corr_dist, corr_phi; cbn [fst snd]. apply atan2_polar. }
  destruct Hxy as [Hx Hy].
  destruct (unit_column q Hu) as [H01 [H11 [H03 H13]]].
  rewrite H01, H03 in Hx. rewrite H11, H13 in Hy.
  assert (Hid : (px - Vector3.x (translation tf)) ^ 2
                + (py - Vector3.y (translation tf)) ^ 2
                = offset self ^ 2 * (1 - tilt ^ 2)).
  { rewrite Hx, Hy. unfold tilt.
    unfold unit_quaternion in Hu.
    set (x := Quaternion.x q) in *. set (y := Quaternion.y q) in *.
    set (z := Quaternion.z q) in *. set (w := Quaternion.w q) in *.
    set (o := offset self). set (tx := Vector3.x (translation tf)).
    set (ty := Vector3.y (translation tf)).
    replace ((tx - o * (2 * (x * y - w * z)) + 0 - tx) ^ 2
             + (ty - o * (1 - 2 * (x * x + z * z)) + 0 - ty) ^ 2)
      with (o ^ 2 * (1 - (2 * (y * z + w * x)) ^ 2
                     + 4 * (x * x + z * z) * (x * x + y * y + z * z + w * w - 1)))
      by ring.
    rewrite Hu. ring. }
  assert (Ht2 : 0 <= tilt ^ 2) by apply pow2_ge_0.
  assert (Ho2 : 0 <= offset self ^ 2) by apply pow2_ge_0.
  split; [exact Hid |]. split; [| split; [| split]].
  - rewrite Hid. nra.
  - rewrite Hid. split.
    + intros H.
      assert (Hz : offset self ^ 2 * tilt ^ 2 = 0) by lra.
      apply Rmult_integral in Hz. destruct Hz as [Hz | Hz]; [left | right]; nra.
    + intros [H | H]; rewrite H; ring.
  - intros Hoff Htilt. rewrite Hid.
    assert (0 < offset self ^ 2) by nra.
    assert (0 < tilt ^ 2) by nra. nra.
  - intros H0 H1. rewrite Hid. unfold tilt. rewrite H0, H1. ring.
Qed.

(** X5: on the reals, for a unit quaternion, the distance to drive differs
    from the planar distance of the marker by at most [|offset|]. *)
Theorem distance_within_offset_of_marker_distance (self : AlignToAruco) :
  let tf := transform (trans_base self) in
  let c := compute_difference TF.quaternion_matrix TF.euler_from_quaternion self in
  let marker := sqrt (Vector3.x (translation tf) ^ 2 + Vector3.y (translation tf) ^ 2) in
  unit_quaternion (rotation tf) ->
  marker - Rabs (offset self) <= corr_dist c <= marker + Rabs (offset self).
Proof.
  intros tf c marker Hu.
  destruct (unit_column (rotation tf) Hu) as [H01 [H11 [H03 H13]]].
  unfold c. rewrite compute_difference_unfold. fold tf.
  unfold corr_dist; cbn [fst snd].
  rewrite H01, H11, H03, H13.
  set (tx := Vector3.x (translation tf)) in *.
  set (ty := Vector3.y (translation tf)) in *.
  set (o := offset self).
  set (u := - o * (2 * (Quaternion.x (rotation tf) * Quaternion.y (rotation tf)
                        - Quaternion.w (rotation tf) * Quaternion.z (rotation tf)))).
  set (v := - o * (1 - 2 * (Quaternion.x (rotation tf) * Quaternion.x (rotation tf)
                            + Quaternion.z (rotation tf) * Quaternion.z (rotation tf)))).
  replace (tx - o * _ + 0) with (tx + u) by (unfold u; ring).
  replace (ty - o * _ + 0) with (ty + v) by (unfold v; ring).
  assert (Huv : sqrt (u ^ 2 + v ^ 2) <= Rabs o).
  { rewrite <- sqrt_Rsqr_abs. apply sqrt_le_1_alt.
    unfold unit_quaternion in Hu. unfold u, v, Rsqr.
    set (x := Quaternion.x (rotation tf)) in *. set (y := Quaternion.y (rotation tf)) in *.
    set (z := Quaternion.z (rotation tf)) in *. set (w := Quaternion.w (rotation tf)) in *.
    replace ((- o * (2 * (x * y - w * z))) ^ 2 + (- o * (1 - 2 * (x * x + z * z))) ^ 2)
      with (o * o * (1 - (2 * (y * z + w * x)) ^ 2
                     + 4 * (x * x + z * z) * (x * x + y * y + z * z + w * w - 1)))
      by ring.
    rewrite Hu.
    assert (0 <= (2 * (y * z + w * x)) ^ 2) by apply pow2_ge_0.
    assert (0 <= o * o) by nra. nra. }
  pose proof (norm_triangle tx ty u v) as H1.
  pose proof (norm_triangle (tx + u) (ty + v) (- u) (- v)) as H2.
  replace (tx + u + - u) with tx in H2 by ring.
  replace (ty + v + - v) with ty in H2 by ring.
  replace ((- u) ^ 2 + (- v) ^ 2) with (u ^ 2 + v ^ 2) in H2 by ring.
  unfold marker. clearbody u v tx ty o. lra.
Qed.

(** X4 at the sample marker. *)
Lemma target_within_offset_sample :
  let c := compute_difference TF.quaternion_matrix TF.euler_from_quaternion
             sample_aligner in
  let px := corr_dist c * cos (corr_phi c) in
  let py := corr_dist c * sin (corr_phi c) in
  let tilt := 2 * (0 * 0 + 1 * 0) in
  (px - 1) ^ 2 + (py - 0) ^ 2 = default_offset ^ 2 * (1 - tilt ^ 2)
  /\ (px - 1) ^ 2 + (py - 0) ^ 2 <= default_offset ^ 2
  /\ ((px - 1) ^ 2 + (py - 0) ^ 2 = default_offset ^ 2
      <-> default_offset = 0 \/ tilt = 0)
  /\ (default_offset <> 0 -> tilt <> 0 ->
      (px - 1) ^ 2 + (py - 0) ^ 2 < default_offset ^ 2)
  /\ (0 = 0 -> 0 = 0 -> (px - 1) ^ 2 + (py - 0) ^ 2 = default_offset ^ 2).
Proof.
  apply (target_within_offset_of_marker sample_aligner).
  unfold unit_quaternion, sample_aligner, aligner, identity_quaternion; simpl. ring.
Defined.

(** X5 at the sample marker. *)
Lemma distance_within_offset_sample :
  let c := compute_difference TF.quaternion_matrix TF.euler_from_quaternion
             sample_aligner in
  sqrt (1 ^ 2 + 0 ^ 2) - Rabs default_offset
  <= corr_dist c
  <= sqrt (1 ^ 2 + 0 ^ 2) + Rabs default_offset.
Proof.
  apply (distance_within_offset_of_marker_distance sample_aligner).
  unfold unit_quaternion, sample_aligner, aligner, identity_quaternion; simpl. ring.
Defined.

(** ** Every run of main *)

Section Runs.

Local Open Scope Q_scope.

Lemma main_run env fuel t0 :
  main env fuel (initial_world t0) =
  match acquire env t0 fuel 0 [] (loop_entry t0) with
  | (None, w1) => (None, w1)
  | (Some r, w1) =>
      (Some r,
       mkWorld (now w1)
         (match r with
          | (Some _, _) => if server_ready env then 3 + goals_sent w1 else goals_sent w1
          | _ => goals_sent w1
          end)
         (trace w1 ++ closing_events env r (goals_sent w1)))
  end.
Proof.
  unfold main, initial_world, loop_entry, closing_events.
  unfold bind at 1, time_time. cbn [now].
  unfold bind at 1, emit at 1. cbn [now goals_sent trace app].
  unfold bind at 1.
  destruct (acquire env t0 fuel 0 [] _) as [[[[t |] missing] |] w1].
  - unfold AlignToAruco_init. unfold bind at 1. unfold bind at 1.
    unfold emit at 1. cbn [now goals_sent trace].
    destruct (server_ready env); cbn [negb].
    + unfold ret at 1. unfold bind at 1.
      match goal with
      | |- context [align_to_marker ?a ?b ?c ?d ?e] =>
          pose proof (align_to_marker_world a b c d e) as Hw;
          destruct (align_to_marker a b c d e) as [[] w2]
      end.
      cbv zeta in Hw. cbn [snd now goals_sent trace] in Hw. subst w2.
      unfold bind, emit, ret. cbn [now goals_sent trace closing_events].
      repeat rewrite <- app_assoc. reflexivity.
    + unfold bind, emit, ret. cbn [now goals_sent trace closing_events].
      repeat rewrite <- app_assoc. reflexivity.
  - unfold bind, emit, ret. cbn [now goals_sent trace closing_events].
    repeat rewrite <- app_assoc. reflexivity.
  - reflexivity.
Qed.

Lemma acquisition_failed_events env l :
  forallb is_acquisition_event (failed_events env l) = true.
Proof. destruct l; reflexivity. Qed.

Lemma acquire_events env st :
  forall fuel i missing w r w',
    acquire env st fuel i missing w = (r, w') ->
    exists new,
      trace w' = (trace w ++ new)%list
      /\ forallb is_acquisition_event new = true
      /\ match r with
         | Some (Some _, _) =>
             exists new0, new = (new0 ++ [Log Warn RobotWillMove])%list
         | _ => True
         end.
Proof.
  induction fuel as [| fuel IH]; intros i missing w r w' Hacq.
  - simpl in Hacq. injection Hacq as <- <-.
    exists []. rewrite app_nil_r. repeat split.
  - destruct (rclpy_ok env i) eqn:Hok.
    2:{ rewrite acquire_not_ok in Hacq by assumption.
        injection Hacq as <- <-. exists []. rewrite app_nil_r. repeat split. }
    destruct (failed (tf_lookup env i)) eqn:Hl.
    2:{ destruct (tf_lookup env i) as [| ex | t] eqn:Ht; try discriminate.
        rewrite (acquire_resolved _ _ _ _ _ _ t) in Hacq by assumption.
        injection Hacq as <- <-. eexists. split; [reflexivity |].
        split; [reflexivity |].
        exists [Print (LookingUp (aruco_tag_name env)); Log Info FoundTag].
        reflexivity. }
    rewrite acquire_failed in Hacq by assumption. cbv zeta in Hacq.
    destruct (Qle_bool (now w - st) timeout_sec) eqn:Hq.
    + apply IH in Hacq. cbn [trace] in Hacq.
      destruct Hacq as [new [Htr [Hall Hend]]].
      exists (failed_events env (tf_lookup env i)
              ++ [SpinOnce; Sleep poll_interval] ++ new)%list.
      split; [rewrite Htr; repeat rewrite <- app_assoc; reflexivity |].
      split.
      * rewrite !forallb_app, acquisition_failed_events, Hall. reflexivity.
      * destruct r as [[[t |] m] |]; try exact I.
        destruct Hend as [new0 ->].
        exists (failed_events env (tf_lookup env i)
                ++ [SpinOnce; Sleep poll_interval] ++ new0)%list.
        repeat rewrite <- app_assoc. reflexivity.
    + injection Hacq as <- <-. cbn [trace].
      exists (failed_events env (tf_lookup env i)).
      split; [reflexivity |].
      split; [apply acquisition_failed_events | exact I].
Qed.

Lemma acquisition_events_quiet tr :
  forallb is_acquisition_event tr = true -> quiet tr = true.
Proof.
  unfold quiet. induction tr as [| e tr IH]; [reflexivity |].
  simpl. intros H. apply andb_prop in H. destruct H as [He Htr].
  rewrite (IH Htr). destruct e; try discriminate; reflexivity.
Qed.

Lemma acquisition_events_no_goal tr :
  forallb is_acquisition_event tr = true -> goals_of tr = [].
Proof.
  induction tr as [| e tr IH]; [reflexivity |].
  simpl. intros H. apply andb_prop in H. destruct H as [He Htr].
  destruct e; try discriminate; apply IH; exact Htr.
Qed.



(** Every run of [main] that comes back: the loop's events, then the closing
    events. *)
Lemma main_trace env fuel t0 r :
  fst (main env fuel (initial_world t0)) = Some r ->
  exists new,
    snd (main env fuel (initial_world t0)) =
      mkWorld (now (snd (main env fuel (initial_world t0))))
        (match r with
         | (Some _, _) => if server_ready env then 3 else 0
         | _ => 0
         end)
        (Log Info WaitingForTransforms :: new ++ closing_events env r 0)%list
    /\ forallb is_acquisition_event new = true
    /\ match r with
       | (Some _, _) => exists new0, new = (new0 ++ [Log Warn RobotWillMove])%list
       | _ => True
       end.
Proof.
  rewrite main_run.
  destruct (acquire env t0 fuel 0 [] (loop_entry t0)) as [[r1 |] w1] eqn:Hacq;
    [| discriminate].
  cbn [fst snd]. intros H. injection H as <-.
  pose proof (acquire_events env t0 _ _ _ _ _ _ Hacq) as [new [Htr [Hall Hend]]].
  pose proof (acquire_log env t0 _ _ _ _ _ _ Hacq) as [Hg _].
  exists new. cbn [now trace goals_sent]. rewrite Htr, Hg.
  split; [| split; [exact Hall |]].
  - cbn [loop_entry goals_sent trace app].
    destruct r1 as [[t |] m]; [destruct (server_ready env) |]; reflexivity.
  - destruct r1 as [[t |] m]; [exact Hend | exact I].
Qed.

Lemma goals_of_goals_for env t n :
  let c := compute_difference TF.quaternion_matrix TF.euler_from_quaternion
             (mkAlignToAruco t default_offset) in
  goals_of
    (goal_events (actuator env n (base_goal "rotate_mobile_base" (corr_phi c)))
       "rotate_mobile_base" (corr_phi c)
     ++ goal_events
          (actuator env (1 + n) (base_goal "translate_mobile_base" (corr_dist c)))
          "translate_mobile_base" (corr_dist c)
     ++ goal_events
          (actuator env (2 + n) (base_goal "rotate_mobile_base" (corr_theta c)))
          "rotate_mobile_base" (corr_theta c))%list
  = goals_for t.
Proof.
  intros c. rewrite !goals_of_app, !goals_of_goal_events. reflexivity.
Qed.

Lemma try_block_world env t w :
  snd (try_block env t w) =
  mkWorld (now w)
    (goals_sent w + List.length (goals_of (try_events env t (goals_sent w))))
    (trace w ++ try_events env t (goals_sent w)).
Proof.
  unfold try_block, try_events, AlignToAruco_init.
  unfold bind at 1. unfold bind at 1. unfold emit at 1. cbn [now goals_sent trace].
  destruct (server_ready env); cbn [negb].
  - unfold ret at 1.
    rewrite align_to_marker_world. cbv zeta. cbn [now goals_sent trace goals_of].
    rewrite !goals_of_app, !goals_of_goal_events. cbn [app List.length].
    f_equal; [lia |]. repeat rewrite <- app_assoc. reflexivity.
  - unfold bind, emit, ret. cbn [snd now goals_sent trace goals_of List.length].
    f_equal; [lia |]. repeat rewrite <- app_assoc. reflexivity.
Qed.

Lemma skipn_length_app {A : Type} (l r : list A) :
  skipn (List.length l) (l ++ r) = r.
Proof. induction l as [| a l IH]; [reflexivity | exact IH]. Qed.

Lemma interrupted_try_block k env t w :
  snd (interrupted k (try_block env t) w) =
  mkWorld (now w)
    (goals_sent w
     + List.length (goals_of (cut k (try_events env t (goals_sent w)))))
    (trace w ++ cut k (try_events env t (goals_sent w))).
Proof.
  unfold interrupted. rewrite try_block_world. cbn [trace now goals_sent].
  destruct k as [k |]; cbn [snd cut]; [| reflexivity].
  rewrite skipn_length_app. reflexivity.
Qed.

Lemma goals_of_firstn k tr :
  exists n, goals_of (firstn k tr) = firstn n (goals_of tr).
Proof.
  revert k. induction tr as [| e tr IH]; intros k.
  - exists 0%nat. destruct k; reflexivity.
  - destruct k as [| k]; [exists 0%nat; reflexivity |].
    destruct (IH k) as [n Hn].
    destruct e; cbn [firstn goals_of]; try (exists n; exact Hn).
    exists (S n). cbn [firstn]. rewrite Hn. reflexivity.
Qed.

Lemma goals_of_try_events env t n :
  goals_of (try_events env t n) = planned_goals env (Some t, []).
Proof.
  unfold try_events, planned_goals. cbn [goals_of].
  destruct (server_ready env); [| reflexivity].
  apply (goals_of_goals_for env t n).
Qed.

Lemma main_interruptible_run k env fuel t0 :
  main_interruptible k env fuel (initial_world t0) =
  match acquire env t0 fuel 0 [] (loop_entry t0) with
  | (None, w1) => (None, w1)
  | (Some r, w1) =>
      (Some r,
       match r with
       | (None, missing) =>
           mkWorld (now w1) (goals_sent w1)
             (trace w1
              ++ [Log Error (TimeoutWaiting (String.concat ", " missing)); Shutdown])
       | (Some t, _) =>
           mkWorld (now w1)
             (goals_sent w1
              + List.length (goals_of (cut k (try_events env t (goals_sent w1)))))
             (trace w1 ++ cut k (try_events env t (goals_sent w1)) ++ [Shutdown])
       end)
  end.
Proof.
  unfold main_interruptible, initial_world, loop_entry.
  unfold bind at 1, time_time. cbn [now].
  unfold bind at 1, emit at 1. cbn [now goals_sent trace app].
  unfold bind at 1.
  destruct (acquire env t0 fuel 0 [] _) as [[[[t |] missing] |] w1].
  - unfold bind at 1.
    pose proof (interrupted_try_block k env t w1) as Hw.
    destruct (interrupted k (try_block env t) w1) as [[] w2].
    cbn [snd] in Hw. subst w2.
    unfold bind, emit, ret. cbn [now goals_sent trace].
    repeat rewrite <- app_assoc. reflexivity.
  - unfold bind, emit, ret. cbn [now goals_sent trace].
    repeat rewrite <- app_assoc. reflexivity.
  - reflexivity.
Qed.

(** Without an interrupt it is [main]. *)
Lemma main_interruptible_none env fuel t0 :
  main_interruptible None env fuel (initial_world t0)
  = main env fuel (initial_world t0).
Proof.
  rewrite main_interruptible_run, main_run.
  destruct (acquire env t0 fuel 0 [] (loop_entry t0)) as [[[[t |] missing] |] w1];
    [| reflexivity | reflexivity].
  cbn [cut closing_events]. f_equal. f_equal.
  rewrite goals_of_try_events. unfold planned_goals, goals_for.
  destruct (server_ready env); cbn [List.length]; lia.
Qed.

(** X6: in every run of [main] that returns, also one cut short by a
    KeyboardInterrupt inside the [try] block, the goals sent are an initial
    part of the planned goals: the three goals computed from the resolved
    transform with the default offset 0.75 when the loop resolved the marker
    and the trajectory server answered, and none otherwise.  Without an
    interrupt all the planned goals are sent; with or without one the run
    ends with the shutdown. *)
Theorem main_sends_an_initial_part_of_the_planned_goals (k : option nat) env fuel t0 r :
  fst (main_interruptible k env fuel (initial_world t0)) = Some r ->
  let w' := snd (main_interruptible k env fuel (initial_world t0)) in
  (exists n : nat, goals_of (trace w') = firstn n (planned_goals env r))
  /\ goals_sent w' = List.length (goals_of (trace w'))
  /\ (k = None -> goals_of (trace w') = planned_goals env r)
  /\ exists before, trace w' = (before ++ [Shutdown])%list.
Proof.
  rewrite main_interruptible_run.
  destruct (acquire env t0 fuel 0 [] (loop_entry t0)) as [[r1 |] w1] eqn:Hacq;
    [| discriminate].
  cbn [fst snd]. intros H. injection H as <-.
  pose proof (acquire_events env t0 _ _ _ _ _ _ Hacq) as [new [Htr [Hall _]]].
  pose proof (acquire_log env t0 _ _ _ _ _ _ Hacq) as [Hg _].
  cbn [loop_entry goals_sent trace] in Hg, Htr.
  assert (Hnone : goals_of (trace w1) = []).
  { rewrite Htr. cbn [app goals_of]. apply (acquisition_events_no_goal new Hall). }
  destruct r1 as [[t |] m]; cbn [trace goals_sent].
  - rewrite !goals_of_app, Hnone, Hg. cbn [goals_of app]. rewrite app_nil_r.
    split; [| split; [reflexivity | split]].
    + destruct k as [k |]; cbn [cut].
      * destruct (goals_of_firstn k (try_events env t 0)) as [n Hn].
        exists n. rewrite Hn, goals_of_try_events. reflexivity.
      * exists 3%nat. rewrite goals_of_try_events. unfold planned_goals.
        destruct (server_ready env); reflexivity.
    + intros ->. cbn [cut]. apply goals_of_try_events.
    + eexists. rewrite app_assoc. reflexivity.
  - rewrite goals_of_app, Hnone, Hg. cbn [goals_of app planned_goals].
    split; [exists 0%nat; reflexivity |]. split; [reflexivity |].
    split; [reflexivity |].
    exists (trace w1 ++ [Log Error (TimeoutWaiting (String.concat ", " m))])%list.
    rewrite <- app_assoc. reflexivity.
Qed.



(** X9: when the marker is resolved but the trajectory server does not
    answer, [main] logs the error, leaves through [sys.exit()], still shuts
    down, and sends no goal. *)
Theorem main_exits_when_server_missing env fuel t0 t missing :
  fst (main env fuel (initial_world t0)) = Some (Some t, missing) ->
  server_ready env = false ->
  let w' := snd (main env fuel (initial_world t0)) in
  exists before,
    trace w' =
      (before ++ [Log Warn RobotWillMove; CreateActionClient;
                  Log Error NoTrajectoryServer; SysExit; Shutdown])%list
    /\ quiet before = true
    /\ goals_sent w' = 0%nat.
Proof.
  intros Hr Hs w'.
  destruct (main_trace env fuel t0 _ Hr) as [new [Hw [Hall [new0 ->]]]].
  unfold w'. rewrite Hw. cbn [trace goals_sent closing_events]. rewrite Hs.
  exists (Log Info WaitingForTransforms :: new0)%list.
  split; [| split; [| reflexivity]].
  - cbn [app]. f_equal. rewrite <- app_assoc. reflexivity.
  - rewrite forallb_app in Hall. apply andb_prop in Hall. destruct Hall as [H0 _].
    unfold quiet. cbn [forallb is_motion negb andb].
    apply (acquisition_events_quiet new0 H0).
Qed.

Lemma attempts_log_entries env i n s :
  In s (attempts_log env i n) ->
  s = "exception"%string \/ s = ("base_link → " ++ aruco_tag_name env)%string.
Proof.
  unfold attempts_log. rewrite in_flat_map. intros [j [_ Hs]].
  destruct (tf_lookup env j); simpl in Hs; intuition.
Qed.

(** X10: a transform the loop returns is the answer of the first attempt
    that resolved the marker: every earlier attempt failed, and [missing]
    holds one entry for each of them, each either [exception] or
    [base_link -> tag]. *)
Theorem acquire_returns_first_resolved env t0 fuel w t missing :
  fst (acquire env t0 fuel 0 [] w) = Some (Some t, missing) ->
  exists n : nat,
    tf_lookup env n = Resolved t
    /\ (forall j, (j < n)%nat -> failed (tf_lookup env j) = true)
    /\ missing = attempts_log env 0 n
    /\ List.length missing = n
    /\ forall s, In s missing ->
         s = "exception"%string
         \/ s = ("base_link → " ++ aruco_tag_name env)%string.
Proof.
  destruct (acquire env t0 fuel 0 [] w) as [r w'] eqn:Hacq.
  cbn [fst]. intros ->.
  destruct (acquire_log env t0 _ _ _ _ _ _ Hacq) as [_ [_ [n [Hm [Hfail Hend]]]]].
  cbn [fst snd app] in *. destruct Hend as [_ Hend].
  assert (Hf : forall j, (j < n)%nat -> failed (tf_lookup env j) = true)
    by (intros j Hj; apply Hfail; lia).
  exists n. subst missing. repeat split.
  - exact Hend.
  - exact Hf.
  - apply attempts_log_length. intros j Hj. apply Hf. lia.
  - apply attempts_log_entries.
Qed.

(** X10 where the marker resolves at the third attempt. *)
Lemma acquire_first_resolved_sample :
  exists n : nat,
    tf_lookup found_at_third_attempt n = Resolved (trans_base sample_aligner)
    /\ (forall j, (j < n)%nat -> failed (tf_lookup found_at_third_attempt j) = true)
    /\ attempts_log found_at_third_attempt 0 2 = attempts_log found_at_third_attempt 0 n
    /\ List.length (attempts_log found_at_third_attempt 0 2) = n
    /\ forall s, In s (attempts_log found_at_third_attempt 0 2) ->
         s = "exception"%string
         \/ s = ("base_link → " ++ aruco_tag_name found_at_third_attempt)%string.
Proof.
  apply (acquire_returns_first_resolved found_at_third_attempt 0 3 (initial_world 0)).
  reflexivity.
Defined.

(** The log never grows beyond [max_iterations] entries. *)
Lemma acquire_log_bound env st :
  (forall j, poll_interval <= iteration_time env j) ->
  forall fuel i missing w r w',
    (i < max_iterations)%nat ->
    inject_Z (Z.of_nat i) <= now w - st ->
    acquire env st fuel i missing w = (Some r, w') ->
    (List.length (snd r) + i <= List.length missing + max_iterations)%nat.
Proof.
  intros Hit. unfold max_iterations, poll_interval in *.
  induction fuel as [| fuel IH]; intros i missing w r w' Hi Hnow Hacq;
    [discriminate |].
  destruct (rclpy_ok env i) eqn:Hok.
  2:{ rewrite acquire_not_ok in Hacq by assumption.
      injection Hacq as <- <-. cbn [snd]. lia. }
  destruct (failed (tf_lookup env i)) eqn:Hl.
  2:{ destruct (tf_lookup env i) as [| ex | t] eqn:Ht; try discriminate.
      rewrite (acquire_resolved _ _ _ _ _ _ t) in Hacq by assumption.
      injection Hacq as <- <-. cbn [snd]. lia. }
  rewrite acquire_failed in Hacq by assumption. cbv zeta in Hacq.
  assert (Hlen : List.length (missing_entry (aruco_tag_name env) (tf_lookup env i))
                 = 1%nat)
    by (destruct (tf_lookup env i); [reflexivity | reflexivity | discriminate]).
  destruct (Qle_bool (now w - st) timeout_sec) eqn:Hq.
  - apply Qle_bool_iff in Hq. unfold timeout_sec in Hq.
    assert (Hi' : (i <= 120)%nat).
    { assert (Hz : inject_Z (Z.of_nat i) <= inject_Z 120) by
        (change (inject_Z 120) with 120; lra).
      rewrite <- Zle_Qle in Hz. lia. }
    apply IH in Hacq.
    + rewrite length_app, Hlen in Hacq. lia.
    + lia.
    + cbn [now]. rewrite inject_nat_succ. specialize (Hit i). lra.
  - injection Hacq as <- <-. cbn [snd]. rewrite length_app, Hlen. lia.
Qed.

(** X11: when every iteration moves the clock by at least [poll_interval],
    the attempt log of a run of [main] never holds more than
    [max_iterations] entries, whatever the fuel. *)
Theorem attempt_log_bounded env t0 fuel r :
  (forall j, poll_interval <= iteration_time env j) ->
  fst (main env fuel (initial_world t0)) = Some r ->
  (List.length (snd r) <= max_iterations)%nat.
Proof.
  intros Hit. rewrite main_run.
  destruct (acquire env t0 fuel 0 [] (loop_entry t0)) as [[r1 |] w1] eqn:Hacq;
    [| discriminate].
  cbn [fst]. intros H. injection H as <-.
  apply (acquire_log_bound env t0 Hit) in Hacq.
  - cbn [List.length] in Hacq. lia.
  - unfold max_iterations. lia.
  - change (0 <= t0 - t0). lra.
Qed.

(** X11 where the marker never shows. *)
Lemma attempt_log_bounded_sample :
  (List.length (attempts_log (never_found 1) 0 122) <= max_iterations)%nat.
Proof.
  apply (attempt_log_bounded (never_found 1) 0 max_iterations
           (None, attempts_log (never_found 1) 0 122)).
  - intros j. unfold poll_interval. simpl. lra.
  - vm_compute. reflexivity.
Defined.

(** X12: when the node is shut down ([rclpy.ok()] false) after [n] failed
    attempts, none of whose timeout checks fired, [main] still reports a
    timeout: it logs the timeout error with the [n] entries and shuts down
    without any motion.  The elapsed time at that point is what the [n]
    iterations took, whether or not it exceeds [timeout_sec]. *)
Theorem stopped_node_reported_as_timeout env t0 (n fuel : nat) :
  (forall i, (i < n)%nat -> rclpy_ok env i = true /\ failed (tf_lookup env i) = true) ->
  rclpy_ok env n = false ->
  (forall i, (i < n)%nat -> elapsed_at env i <= timeout_sec) ->
  (n < fuel)%nat ->
  let w' := snd (main env fuel (initial_world t0)) in
  fst (main env fuel (initial_world t0)) = Some (None, attempts_log env 0 n)
  /\ now w' - t0 == elapsed_at env n
  /\ exists before,
       trace w' =
         (before
          ++ [Log Error (TimeoutWaiting (String.concat ", " (attempts_log env 0 n)));
              Shutdown])%list
       /\ quiet before = true.
Proof.
  intros Hrun Hstop Hel Hfuel w'. unfold w'. clear w'.
  destruct (acquire_failed_run env t0 n 0%nat [] (loop_entry t0) (fuel - n))
    as [w1 [Hrun1 Hnow]].
  - intros j Hj. apply Hrun. lia.
  - intros j Hj. apply Hel. lia.
  - cbn [loop_entry now elapsed_at]. ring.
  - replace (n + (fuel - n))%nat with fuel in Hrun1 by lia.
    cbn [Nat.add app] in Hrun1, Hnow.
    destruct (fuel - n)%nat as [| f] eqn:Hf; [lia |].
    rewrite acquire_not_ok in Hrun1 by exact Hstop.
    destruct (acquire_events env t0 _ _ _ _ _ _ Hrun1) as [new [Htr [Hall _]]].
    rewrite main_run, Hrun1. cbn [fst snd now trace closing_events].
    split; [reflexivity |]. split; [exact Hnow |].
    exists (Log Info WaitingForTransforms :: new)%list. split.
    + rewrite Htr. cbn [loop_entry trace app]. reflexivity.
    + unfold quiet. cbn [forallb is_motion negb andb].
      apply (acquisition_events_quiet new Hall).
Qed.

(** X12 for a node shut down after one failed attempt. *)
Lemma stopped_node_sample :
  let w' := snd (main (node_stops_after 1) 2 (initial_world 0)) in
  fst (main (node_stops_after 1) 2 (initial_world 0))
    = Some (None, attempts_log (node_stops_after 1) 0 1)
  /\ now w' - 0 == elapsed_at (node_stops_after 1) 1
  /\ exists before,
       trace w' =
         (before
          ++ [Log Error (TimeoutWaiting
                (String.concat ", " (attempts_log (node_stops_after 1) 0 1)));
              Shutdown])%list
       /\ quiet before = true.
Proof.
  apply (stopped_node_reported_as_timeout (node_stops_after 1) 0 1 2).
  - intros i Hi. replace i with 0%nat by lia. split; reflexivity.
  - reflexivity.
  - intros i Hi. replace i with 0%nat by lia. vm_compute. discriminate.
  - lia.
Defined.

(** An interrupt while the result of the first goal is awaited: one goal
    has been sent, and the run still ends with the shutdown. *)
Lemma interrupted_run_sends_one_goal :
  let w' := snd (main_interruptible (Some 4%nat) found_at_third_attempt 3
                   (initial_world 0)) in
  goals_sent w' = 1%nat
  /\ List.length (goals_of (trace w')) = 1%nat
  /\ last (trace w') SysExit = Shutdown.
Proof.
  cbv zeta. rewrite main_interruptible_run. repeat split.
Qed.

(** X6 where the marker resolves at the third attempt and the interrupt
    arrives while the result of the first goal is awaited. *)
Lemma main_goals_interrupted_sample :
  let w' := snd (main_interruptible (Some 4%nat) found_at_third_attempt 3
                   (initial_world 0)) in
  let r := (Some (trans_base sample_aligner),
            attempts_log found_at_third_attempt 0 2) in
  (exists n : nat,
     goals_of (trace w') = firstn n (planned_goals found_at_third_attempt r))
  /\ goals_sent w' = List.length (goals_of (trace w'))
  /\ (Some 4%nat = None ->
      goals_of (trace w') = planned_goals found_at_third_attempt r)
  /\ exists before, trace w' = (before ++ [Shutdown])%list.
Proof.
  apply (main_sends_an_initial_part_of_the_planned_goals (Some 4%nat) found_at_third_attempt 3 0).
  rewrite main_interruptible_run. reflexivity.
Defined.



(** X9 where the marker resolves at once and no server answers. *)
Lemma main_server_missing_sample :
  let w' := snd (main no_trajectory_server 1 (initial_world 0)) in
  exists before,
    trace w' =
      (before ++ [Log Warn RobotWillMove; CreateActionClient;
                  Log Error NoTrajectoryServer; SysExit; Shutdown])%list
    /\ quiet before = true
    /\ goals_sent w' = 0%nat.
Proof.
  apply (main_exits_when_server_missing no_trajectory_server 1 0 (trans_base sample_aligner) []).
  - rewrite main_run. reflexivity.
  - reflexivity.
Defined.

End Runs.
